(** * HADES / Code/mesh/capsule2D.py: geometry and topology of the capsule mesh

    A shallow embedding of [Capsule2D] and of the main script that drives it.

    Number model.  The geometry of the script goes through [np.cos], [np.sin]
    and [np.tan]; its floating-point numbers are embedded as real numbers
    ([R]), so that statements about lengths, angles and derivatives are the
    mathematical ones.  The only place where the script converts a float to an
    integer, the circumferential cell counts [int(0.5*self.Nz * a/b)], is
    embedded on binary64 numbers ([PrimFloat]), which evaluate exactly as
    Python's [float] does.

    Object model.  A Python object is its attribute dictionary: a finite map
    from attribute names to values.  Reading an attribute that has not been
    assigned yet raises [AttributeError]; this is [None] in the option monad
    that all methods live in. *)

From Stdlib Require Import Uint63 PrimFloat FloatOps SpecFloat.
From Stdlib Require Import DecimalString.
From Stdlib Require Import ZArith QArith Reals Lra Lia.
From stdpp Require Import gmap strings list.

#[local] Open Scope R_scope.
#[local] Set Warnings "-inexact-float".

(** ** Python numbers *)

Module Py.

(** [int(f)] on a float: truncation towards zero; [OverflowError] on an
    infinity and [ValueError] on a NaN are [None]. *)
Definition int_of_float (f : float) : option Z :=
  match Prim2SF f with
  | S754_zero _ => Some 0%Z
  | S754_finite s m e =>
      let v := (if (0 <=? e)%Z then Z.pos m * 2 ^ e
                else Z.pos m / 2 ^ (- e))%Z in
      Some (if s then (- v)%Z else v)
  | S754_infinity _ => None
  | S754_nan => None
  end.

(** The float of an [int] (exact below 2^53, which covers [Nz]). *)
Definition float_of_int (z : Z) : float :=
  if (z <? 0)%Z then (- PrimFloat.of_uint63 (Uint63.of_Z (- z)))%float
  else PrimFloat.of_uint63 (Uint63.of_Z z).

(** [str(i)] for a non-negative [int]. *)
Definition str (i : nat) : string := NilZero.string_of_uint (Nat.to_uint i).

(** Rounding of a real to the nearest integer, ties to even. *)
Definition round_half_even (r : R) : Z :=
  let f := Int_part r in
  let frac := r - IZR f in
  if Rlt_dec frac (1 / 2) then f
  else if Rlt_dec (1 / 2) frac then (f + 1)%Z
  else if Z.even f then f else (f + 1)%Z.

(** [round(x, ndigits)]. *)
Definition round (x : R) (ndigits : nat) : R :=
  IZR (round_half_even (x * 10 ^ ndigits)) / 10 ^ ndigits.

End Py.

(** ** The part of numpy that the script uses *)

Module np.

Definition deg2rad (x : R) : R := x * (PI / 180).

(** [np.linspace(start, stop, num)], end point included. *)
Definition linspace (start stop : R) (num : nat) : list R :=
  let step := (stop - start) / INR (num - 1) in
  map (fun i => start + INR i * step) (seq 0 num).

End np.

(** ** Attribute dictionaries *)

Inductive value : Type :=
  | VInt (z : Z)
  | VFloat (r : R)
  | VArr (a : list R)
  | VStr (s : string).

(** The attribute dictionary of a [Capsule2D] instance. *)
Abbreviation obj := (gmap string value).

(** A number read as a real: Python promotes [int] to [float] in mixed
    arithmetic. *)
Definition to_R (v : value) : option R :=
  match v with
  | VInt z => Some (IZR z)
  | VFloat r => Some r
  | _ => None
  end.

Definition get_num (self : obj) (a : string) : option R :=
  v ← self !! a; to_R v.

Definition get_int (self : obj) (a : string) : option Z :=
  v ← self !! a; match v with VInt z => Some z | _ => None end.

Definition get_arr (self : obj) (a : string) : option (list R) :=
  v ← self !! a; match v with VArr l => Some l | _ => None end.

(** Unary [+] and [-], on numbers and element-wise on arrays. *)
Definition pos (v : value) : option value :=
  match v with
  | VInt z => Some (VInt z)
  | VFloat r => Some (VFloat r)
  | VArr a => Some (VArr a)
  | VStr _ => None
  end.

Definition neg (v : value) : option value :=
  match v with
  | VInt z => Some (VInt (- z))
  | VFloat r => Some (VFloat (- r))
  | VArr a => Some (VArr (map Ropp a))
  | VStr _ => None
  end.

(** [self.dst = +self.src] and [self.dst = -self.src]. *)
Definition assign_pos (dst src : string) (self : obj) : option obj :=
  v ← self !! src; w ← pos v; Some (<[dst := w]> self).

Definition assign_neg (dst src : string) (self : obj) : option obj :=
  v ← self !! src; w ← neg v; Some (<[dst := w]> self).

(** ** The mesh-description builder

    The script hands its vertices, blocks, edges and boundaries to the
    external package [ofblockmeshdicthelper].  Of that package the script
    uses the constructors and the [add_*] methods of [BlockMeshDict], which
    store what they are given in dictionaries keyed by name, and
    [HexBlock.face], which picks four of the eight corners of a block. *)

Module bmd.

Record Vertex := mkVertex { vx : R; vy : R; vz : R; vname : string }.

Record HexBlock := mkHexBlock {
  hb_vnames : list string;
  hb_cells : Z * Z * Z;
  hb_name : string;
  hb_grading : R * R * R
}.

(** A face remembers the block and the side it was taken from, and the
    four corner names of that side. *)
Record Face := mkFace {
  f_block : string;
  f_index : string;
  f_vnames : list string
}.

Inductive Edge :=
  | ArcEdge (vnames : list string) (name : string) (interVertex : Vertex)
  | SplineEdge (vnames : list string) (name : string) (points : list Vertex).

Record Boundary := mkBoundary {
  bd_type : string;
  bd_name : string;
  bd_faces : list Face
}.

(** [d[k] = v] on a dictionary kept in insertion order: a key that is
    already there keeps its place and takes the new value. *)
Fixpoint dict_set {A} (k : string) (v : A) (d : list (string * A))
  : list (string * A) :=
  match d with
  | [] => [(k, v)]
  | (k', v') :: d' =>
      if String.eqb k' k then (k, v) :: d' else (k', v') :: dict_set k v d'
  end.

(** [d.get(k)] *)
Fixpoint dict_get {A} (k : string) (d : list (string * A)) : option A :=
  match d with
  | [] => None
  | (k', v) :: d' => if String.eqb k' k then Some v else dict_get k d'
  end.

Record BlockMeshDict := mkBlockMeshDict {
  metric : string;
  vertices : list (string * Vertex);
  blocks : list (string * HexBlock);
  edges : list (string * Edge);
  boundaries : list (string * Boundary)
}.

Definition new : BlockMeshDict :=
  {| metric := ""; vertices := []; blocks := []; edges := [];
     boundaries := [] |}.

Definition set_metric (b : BlockMeshDict) (m : string) : BlockMeshDict :=
  {| metric := m; vertices := vertices b; blocks := blocks b;
     edges := edges b; boundaries := boundaries b |}.

Definition add_vertex (b : BlockMeshDict) (x y z : R) (name : string)
  : BlockMeshDict :=
  {| metric := metric b;
     vertices := dict_set name (mkVertex x y z name) (vertices b);
     blocks := blocks b; edges := edges b; boundaries := boundaries b |}.

Definition add_hexblock (b : BlockMeshDict) (vnames : list string)
    (cells : Z * Z * Z) (name : string) (grading : R * R * R)
  : BlockMeshDict * HexBlock :=
  let h := mkHexBlock vnames cells name grading in
  ({| metric := metric b; vertices := vertices b;
      blocks := dict_set name h (blocks b);
      edges := edges b; boundaries := boundaries b |}, h).

Definition add_edge (b : BlockMeshDict) (name : string) (e : Edge)
  : BlockMeshDict :=
  {| metric := metric b; vertices := vertices b; blocks := blocks b;
     edges := dict_set name e (edges b); boundaries := boundaries b |}.

Definition add_arcedge (b : BlockMeshDict) (vnames : list string)
    (name : string) (interVertex : Vertex) : BlockMeshDict :=
  add_edge b name (ArcEdge vnames name interVertex).

Definition add_splineedge (b : BlockMeshDict) (vnames : list string)
    (name : string) (points : list Vertex) : BlockMeshDict :=
  add_edge b name (SplineEdge vnames name points).

Definition add_boundary (b : BlockMeshDict) (type_ name : string)
    (faces : list Face) : BlockMeshDict :=
  {| metric := metric b; vertices := vertices b; blocks := blocks b;
     edges := edges b;
     boundaries := dict_set name (mkBoundary type_ name faces) (boundaries b) |}.

(** The corners of the six sides of a block, by position in its list of
    eight corner names: the x-min, x-max, y-min, y-max, z-min and z-max
    sides of the hexahedron. *)
Definition face_corners (index : string) : option (list nat) :=
  if String.eqb index "w" then Some [0; 4; 7; 3]%nat
  else if String.eqb index "e" then Some [1; 2; 6; 5]%nat
  else if String.eqb index "s" then Some [0; 1; 5; 4]%nat
  else if String.eqb index "n" then Some [2; 3; 7; 6]%nat
  else if String.eqb index "b" then Some [0; 3; 2; 1]%nat
  else if String.eqb index "t" then Some [4; 5; 6; 7]%nat
  else None.

(** [HexBlock.face(index)] *)
Definition face (h : HexBlock) (index : string) : option Face :=
  corners ← face_corners index;
  vn ← mapM (λ i, hb_vnames h !! i) corners;
  Some (mkFace (hb_name h) index vn).

End bmd.

(** ** class Capsule2D *)

Module Capsule2D.

(** [__init__(self, diameter)] *)
Definition init (diameter : R) : obj :=
  let self : obj := ∅ in
  let self := <["diameter" := VFloat diameter]> self in
  let self := <["radius" := VFloat (diameter / 2)]> self in
  let self := <["Nx" := VInt 41]> self in
  let self := <["Ny" := VInt 1]> self in
  let self := <["Nz" := VInt 121]> self in
  let self := <["expandX" := VFloat (1 / 1000)]> self in
  let self := <["expandY" := VInt 1]> self in
  let self := <["expandZ" := VInt 1]> self in
  let turbulenceModel := "k-epsilon"%string in
  let self :=
    <["filePath" :=
        VStr ("../../" +:+ turbulenceModel +:+
              "/2D_capsule_v2/capsule_from_prism/system/")]> self in
  let posXmax := 4.0 in
  let posZmax := 4.0 in
  let self := <["posXmax" := VFloat posXmax]> self in
  let self := <["negXmax" := VFloat (- 2.0)]> self in
  let self := <["posYmax" := VFloat 0.1]> self in
  let self := <["negYmax" := VFloat (- 0.1)]> self in
  let self := <["posZmax" := VFloat posZmax]> self in
  let self := <["negZmax" := VFloat 4.0]> self in
  let self := <["dteta12" := VInt 170]> self in
  let self := <["dteta2" := VInt 155]> self in
  let self := <["dteta4" := VInt 75]> self in
  let self := <["dteta45" := VInt 60]> self in
  let self := <["dteta5" := VInt 45]> self in
  let self := <["dteta56" := VInt 23]> self in
  let self := <["ex0" := VInt 0]> self in
  let self := <["ez0" := VInt 0]> self in
  let self := <["ex1" := VFloat (- 2 / 0.4 * diameter)]> self in
  let self := <["ez1" := VFloat 0.0]> self in
  let self := <["ex3" := VInt 0]> self in
  let self := <["ez3" := VFloat ((posZmax / 0.4) * diameter)]> self in
  let self := <["ex6" := VFloat ((posXmax / 0.4) * diameter)]> self in
  let self := <["ez6" := VInt 0]> self in
  self.

(** [circle(x0, z0, r, teta)] *)
Definition circle (x0 z0 r teta : R) : R * R :=
  let teta := np.deg2rad teta in
  let x := x0 + r * cos teta in
  let z := z0 + r * sin teta in
  (x, z).

(** The coefficients [(a, b, c, d)] computed by [splines]; [rad] is the
    parameter [R] of the source. *)
Definition splines_coeffs (x0 teta0 rad diameter posZmax : R) : R * R * R * R :=
  let b := (3 / (1 * x0 ^ 2)) *
           (rad * sin teta0 + x0 / (3 * tan teta0) - (posZmax / 0.4) * diameter) in
  let a := (1 / (3 * x0 ^ 2)) * (- 1 / tan teta0 - (2 * b * x0)) in
  let c := 0.0 in
  let d := (posZmax / 0.4) * diameter in
  (a, b, c, d).

(** The inner function [z] of [splines]. *)
Definition splines_z (x0 teta0 rad diameter posZmax : R) (x : R) : R :=
  let '(a, b, c, d) := splines_coeffs x0 teta0 rad diameter posZmax in
  a * x ^ 3 + b * x ^ 2 + c * x + d.

(** [splines(x0, x, teta0, R, diameter, posZmax)]; [x] is an array and
    [z(x)] is evaluated element-wise. *)
Definition splines (x0 : R) (x : list R) (teta0 rad diameter posZmax : R)
  : list R :=
  map (splines_z x0 teta0 rad diameter posZmax) x.

(** [inlet_circle(self)] *)
Definition inlet_circle (self : obj) : option obj :=
  x6 ← get_num self "ex6";
  z6 ← get_num self "ez6";
  posXmax ← get_num self "posXmax";
  ex1 ← get_num self "ex1";
  diameter ← get_num self "diameter";
  let r := (posXmax - ex1) / 0.4 * diameter in
  teta12 ← get_num self "dteta12";
  let '(ex12, ez12) := circle x6 z6 r teta12 in
  let self := <["ex12" := VFloat ex12]> self in
  let self := <["ez12" := VFloat ez12]> self in
  teta2 ← get_num self "dteta2";
  let '(ex2, ez2) := circle x6 z6 r teta2 in
  let self := <["ex2" := VFloat ex2]> self in
  let self := <["ez2" := VFloat ez2]> self in
  Some self.

(** [outlet_circle(self)] *)
Definition outlet_circle (self : obj) : option obj :=
  x0 ← get_num self "ex0";
  z0 ← get_num self "ez0";
  posXmax ← get_num self "posXmax";
  diameter ← get_num self "diameter";
  let r := posXmax / 0.4 * diameter in
  teta4 ← get_num self "dteta4";
  teta45 ← get_num self "dteta45";
  teta5 ← get_num self "dteta5";
  teta56 ← get_num self "dteta56";
  let '(ex4, ez4) := circle x0 z0 r teta4 in
  let self := <["ex4" := VFloat ex4]> self in
  let self := <["ez4" := VFloat ez4]> self in
  let '(ex45, ez45) := circle x0 z0 r teta45 in
  let self := <["ex45" := VFloat ex45]> self in
  let self := <["ez45" := VFloat ez45]> self in
  let '(ex5, ez5) := circle x0 z0 r teta5 in
  let self := <["ex5" := VFloat ex5]> self in
  let self := <["ez5" := VFloat ez5]> self in
  let '(ex56, ez56) := circle x0 z0 r teta56 in
  let self := <["ex56" := VFloat ex56]> self in
  let self := <["ez56" := VFloat ez56]> self in
  Some self.

(** [main_points(self)] *)
Definition main_points (self : obj) : option obj :=
  self ← inlet_circle self;
  outlet_circle self.

(** [inlet_spline(self)] *)
Definition inlet_spline (self : obj) : option obj :=
  ex2 ← get_num self "ex2";
  let self := <["ex23" := VArr (np.linspace ex2 0 10)]> self in
  x2 ← get_num self "ex2";
  dteta2 ← get_num self "dteta2";
  let teta2 := np.deg2rad dteta2 in
  ex1 ← get_num self "ex1";
  diameter ← get_num self "diameter";
  let rad := (4 - ex1) / 0.4 * diameter in
  ex23 ← get_arr self "ex23";
  posZmax ← get_num self "posZmax";
  let self :=
    <["ez23" := VArr (splines x2 ex23 teta2 rad diameter posZmax)]> self in
  Some self.

(** [outlet_spline(self)] *)
Definition outlet_spline (self : obj) : option obj :=
  ex4 ← get_num self "ex4";
  let self := <["ex34" := VArr (np.linspace ex4 0 10)]> self in
  x4 ← get_num self "ex4";
  dteta4 ← get_num self "dteta4";
  let teta4 := np.deg2rad dteta4 in
  diameter ← get_num self "diameter";
  let r := 4 / 0.4 * diameter in
  ex34 ← get_arr self "ex34";
  posZmax ← get_num self "posZmax";
  let self :=
    <["ez34" := VArr (splines x4 ex34 teta4 r diameter posZmax)]> self in
  Some self.

(** [bottom_points(self)] *)
Definition bottom_points (self : obj) : option obj :=
  (* External points *)
  self ← assign_pos "ex67" "ex56" self;
  self ← assign_neg "ez67" "ez56" self;
  self ← assign_pos "ex7" "ex5" self;
  self ← assign_neg "ez7" "ez5" self;
  self ← assign_pos "ex78" "ex45" self;
  self ← assign_neg "ez78" "ez45" self;
  self ← assign_pos "ex8" "ex4" self;
  self ← assign_neg "ez8" "ez4" self;
  self ← assign_pos "ex89" "ex34" self;
  self ← assign_neg "ez89" "ez34" self;
  self ← assign_pos "ex9" "ex3" self;
  self ← assign_neg "ez9" "ez3" self;
  self ← assign_pos "ex910" "ex23" self;
  self ← assign_neg "ez910" "ez23" self;
  self ← assign_pos "ex10" "ex2" self;
  self ← assign_neg "ez10" "ez2" self;
  self ← assign_pos "ex1011" "ex12" self;
  self ← assign_neg "ez1011" "ez12" self;
  (* Capsule points *)
  self ← assign_pos "cx7" "cx5" self;
  self ← assign_neg "cz7" "cz5" self;
  self ← assign_pos "cx8" "cx4" self;
  self ← assign_neg "cz8" "cz4" self;
  self ← assign_pos "cx9" "cx3" self;
  self ← assign_neg "cz9" "cz3" self;
  self ← assign_pos "cx10" "cx2" self;
  self ← assign_neg "cz10" "cz2" self;
  self ← assign_pos "cx1011" "cx12" self;
  self ← assign_neg "cz1011" "cz12" self;
  Some self.

(** [capsule_points(self)]; the two local lists [x] and [z] that the
    method builds at its end are never used and are left out. *)
Definition capsule_points (self : obj) : option obj :=
  diameter ← get_num self "diameter";
  let ratio := diameter / 0.4 in
  let self := <["cx1" := VFloat (- 0.120 * ratio)]> self in
  let self := <["cz1" := VFloat 0.0]> self in
  let self := <["cx12" := VFloat (- 0.107938 * ratio)]> self in
  let self := <["cz12" := VFloat (0.068404 * ratio)]> self in
  let self := <["cx2" := VFloat (- 0.080 * ratio)]> self in
  let self := <["cz2" := VFloat (0.120 * ratio)]> self in
  let self := <["cx3" := VFloat (- 0.040 * ratio)]> self in
  let self := <["cz3" := VFloat (0.160 * ratio)]> self in
  let self := <["cx4" := VFloat 0.0]> self in
  diameter ← get_num self "diameter";
  let self := <["cz4" := VFloat (diameter / 2)]> self in
  let self := <["cx5" := VFloat (0.080 * ratio)]> self in
  let self := <["cz5" := VFloat (0.120 * ratio)]> self in
  let self := <["cx6" := VFloat (0.080 * ratio)]> self in
  let self := <["cz6" := VFloat (0.000 * ratio)]> self in
  Some self.

(** [Vertex(self.xa, self.ya, self.za, name)] *)
Definition Vertex_ (self : obj) (xa ya za : string) (name : string)
  : option bmd.Vertex :=
  x ← get_num self xa;
  y ← get_num self ya;
  z ← get_num self za;
  Some (bmd.mkVertex x y z name).

(** The third entry of the cell-count triple of a block, as it is written
    in the source: [int(0.5*self.Nz * angle/span) + offset]. *)
Record circ_cells := mkCirc { angle : float; span : float; offset : Z }.

Definition circ_count (Nz : Z) (c : circ_cells) : option Z :=
  n ← Py.int_of_float (0.5 * Py.float_of_int Nz * angle c / span c)%float;
  Some (n + offset c)%Z.

Definition cells_b1 : circ_cells := mkCirc 87.3 200.5 0.
Definition cells_b2 : circ_cells := mkCirc 56.6 200.5 2.
Definition cells_b3 : circ_cells := mkCirc 56.6 200.5 (-1).
Definition cells_b4 : circ_cells := mkCirc 113.1 233 4.
Definition cells_b5 : circ_cells := mkCirc 120 233 (-4).
Definition cells_b6 : circ_cells := mkCirc 120 233 (-4).
Definition cells_b7 : circ_cells := mkCirc 113.1 233 4.
Definition cells_b8 : circ_cells := mkCirc 56.6 200.5 (-1).
Definition cells_b9 : circ_cells := mkCirc 56.6 200.5 2.
Definition cells_b10 : circ_cells := mkCirc 87.3 200.5 0.

(** [bmd.add_hexblock(vnames, (self.Nx, self.Ny, <c>), name,
    grading=SimpleGrading(self.expandX, self.expandY, self.expandZ))] *)
Definition hexblock (self : obj) (bmd : bmd.BlockMeshDict)
    (vnames : list string) (c : circ_cells) (name : string)
  : option (bmd.BlockMeshDict * bmd.HexBlock) :=
  Nx ← get_int self "Nx";
  Ny ← get_int self "Ny";
  Nz ← get_int self "Nz";
  n ← circ_count Nz c;
  expandX ← get_num self "expandX";
  expandY ← get_num self "expandY";
  expandZ ← get_num self "expandZ";
  Some (bmd.add_hexblock bmd vnames (Nx, Ny, n) name
          (expandX, expandY, expandZ)).

(** The loops [for x, z, i in zip(self.xa, self.za, range(len(self.xa)))]
    that build the front and the back point list of a spline edge. *)
Definition spline_loop (self : obj) (xa za : string) (front back : string)
  : option (list bmd.Vertex * list bmd.Vertex) :=
  xs ← get_arr self xa;
  zs ← get_arr self za;
  n ← length <$> get_arr self xa;
  F ← mapM (λ '(x, z, i),
             y ← get_num self "posYmax";
             Some (bmd.mkVertex x y z (front +:+ Py.str i)))
           (zip (zip xs zs) (seq 0 n));
  B ← mapM (λ '(x, z, i),
             y ← get_num self "negYmax";
             Some (bmd.mkVertex x y z (back +:+ Py.str i)))
           (zip (zip xs zs) (seq 0 n));
  Some (F, B).

(** [to_blockMesh_dict2(self)], up to the point where the topology is
    complete: the numbering of the vertices ([bmd.assign_vertexid()]) and the
    writing of the file are left to the builder. *)
Definition to_blockMesh_dict2 (self : obj) : option bmd.BlockMeshDict :=
  let bmd := bmd.new in
  let bmd := bmd.set_metric bmd "m" in
  basevs ← mapM (λ v, v) [
    (* Top part, front external main points *)
    Vertex_ self "ex0" "posYmax" "ez0" "v0f";
    Vertex_ self "ex1" "posYmax" "ez1" "v1f";
    Vertex_ self "ex2" "posYmax" "ez2" "v2f";
    Vertex_ self "ex3" "posYmax" "ez3" "v3f";
    Vertex_ self "ex4" "posYmax" "ez4" "v4f";
    Vertex_ self "ex5" "posYmax" "ez5" "v5f";
    Vertex_ self "ex6" "posYmax" "ez6" "v6f";
    (* Back external main points *)
    Vertex_ self "ex0" "negYmax" "ez0" "v0b";
    Vertex_ self "ex1" "negYmax" "ez1" "v1b";
    Vertex_ self "ex2" "negYmax" "ez2" "v2b";
    Vertex_ self "ex3" "negYmax" "ez3" "v3b";
    Vertex_ self "ex4" "negYmax" "ez4" "v4b";
    Vertex_ self "ex5" "negYmax" "ez5" "v5b";
    Vertex_ self "ex6" "negYmax" "ez6" "v6b";
    (* Capsule vertices, posYmax *)
    Vertex_ self "cx1" "posYmax" "cz1" "c1f";
    Vertex_ self "cx12" "posYmax" "cz12" "c12f";
    Vertex_ self "cx2" "posYmax" "cz2" "c2f";
    Vertex_ self "cx3" "posYmax" "cz3" "c3f";
    Vertex_ self "cx4" "posYmax" "cz4" "c4f";
    Vertex_ self "cx5" "posYmax" "cz5" "c5f";
    Vertex_ self "cx6" "posYmax" "cz6" "c6f";
    (* Capsule vertices, negYmax *)
    Vertex_ self "cx1" "negYmax" "cz1" "c1b";
    Vertex_ self "cx12" "negYmax" "cz12" "c12b";
    Vertex_ self "cx2" "negYmax" "cz2" "c2b";
    Vertex_ self "cx3" "negYmax" "cz3" "c3b";
    Vertex_ self "cx4" "negYmax" "cz4" "c4b";
    Vertex_ self "cx5" "negYmax" "cz5" "c5b";
    Vertex_ self "cx6" "negYmax" "cz6" "c6b";
    (* Bottom part, front external main points *)
    Vertex_ self "ex7" "posYmax" "ez7" "v7f";
    Vertex_ self "ex8" "posYmax" "ez8" "v8f";
    Vertex_ self "ex9" "posYmax" "ez9" "v9f";
    Vertex_ self "ex10" "posYmax" "ez10" "v10f";
    (* Back external main points *)
    Vertex_ self "ex7" "negYmax" "ez7" "v7b";
    Vertex_ self "ex8" "negYmax" "ez8" "v8b";
    Vertex_ self "ex9" "negYmax" "ez9" "v9b";
    Vertex_ self "ex10" "negYmax" "ez10" "v10b";
    (* Capsule vertices, posYmax *)
    Vertex_ self "cx7" "posYmax" "cz7" "c7f";
    Vertex_ self "cx8" "posYmax" "cz8" "c8f";
    Vertex_ self "cx9" "posYmax" "cz9" "c9f";
    Vertex_ self "cx10" "posYmax" "cz10" "c10f";
    (* Capsule vertices, negYmax *)
    Vertex_ self "cx7" "negYmax" "cz7" "c7b";
    Vertex_ self "cx8" "negYmax" "cz8" "c8b";
    Vertex_ self "cx9" "negYmax" "cz9" "c9b";
    Vertex_ self "cx10" "negYmax" "cz10" "c10b"
  ];
  let bmd :=
    foldl (λ bmd v,
             bmd.add_vertex bmd
               (Py.round (bmd.vx v) 4)
               (Py.round (bmd.vy v) 4)
               (Py.round (bmd.vz v) 4)
               (bmd.vname v))
          bmd basevs in
  '(bmd, b1) ← hexblock self bmd
      ["v2f"; "c2f"; "c2b"; "v2b"; "v1f"; "c1f"; "c1b"; "v1b"]
      cells_b1 "b1";
  '(bmd, b2) ← hexblock self bmd
      ["v3f"; "c3f"; "c3b"; "v3b"; "v2f"; "c2f"; "c2b"; "v2b"]
      cells_b2 "b2";
  '(bmd, b3) ← hexblock self bmd
      ["v4f"; "c4f"; "c4b"; "v4b"; "v3f"; "c3f"; "c3b"; "v3b"]
      cells_b3 "b3";
  '(bmd, b4) ← hexblock self bmd
      ["v5f"; "c5f"; "c5b"; "v5b"; "v4f"; "c4f"; "c4b"; "v4b"]
      cells_b4 "b4";
  '(bmd, b5) ← hexblock self bmd
      ["v6f"; "c6f"; "c6b"; "v6b"; "v5f"; "c5f"; "c5b"; "v5b"]
      cells_b5 "b5";
  '(bmd, b6) ← hexblock self bmd
      ["v7f"; "c7f"; "c7b"; "v7b"; "v6f"; "c6f"; "c6b"; "v6b"]
      cells_b6 "b6";
  '(bmd, b7) ← hexblock self bmd
      ["v8f"; "c8f"; "c8b"; "v8b"; "v7f"; "c7f"; "c7b"; "v7b"]
      cells_b7 "b7";
  '(bmd, b8) ← hexblock self bmd
      ["v9f"; "c9f"; "c9b"; "v9b"; "v8f"; "c8f"; "c8b"; "v8b"]
      cells_b8 "b8";
  '(bmd, b9) ← hexblock self bmd
      ["v10f"; "c10f"; "c10b"; "v10b"; "v9f"; "c9f"; "c9b"; "v9b"]
      cells_b9 "b9";
  '(bmd, b10) ← hexblock self bmd
      ["v1f"; "c1f"; "c1b"; "v1b"; "v10f"; "c10f"; "c10b"; "v10b"]
      cells_b10 "b10";
  (* Add circles shapes *)
  p12cf ← Vertex_ self "cx12" "posYmax" "cz12" "c12f";
  let bmd := bmd.add_arcedge bmd ["c1f"; "c2f"] "capsuleFront12" p12cf in
  p12cb ← Vertex_ self "cx12" "negYmax" "cz12" "c12b";
  let bmd := bmd.add_arcedge bmd ["c1b"; "c2b"] "capsuleBac12" p12cb in
  p12ef ← Vertex_ self "ex12" "posYmax" "ez12" "e12f";
  let bmd := bmd.add_arcedge bmd ["v1f"; "v2f"] "inletFront12" p12ef in
  p12eb ← Vertex_ self "ex12" "negYmax" "ez12" "e12b";
  let bmd := bmd.add_arcedge bmd ["v1b"; "v2b"] "inletBack12" p12eb in
  p45ef ← Vertex_ self "ex45" "posYmax" "ez45" "e45f";
  let bmd := bmd.add_arcedge bmd ["v4f"; "v5f"] "outletFront45" p45ef in
  p45eb ← Vertex_ self "ex45" "negYmax" "ez45" "e45b";
  let bmd := bmd.add_arcedge bmd ["v4b"; "v5b"] "outletBack45" p45eb in
  p56ef ← Vertex_ self "ex56" "posYmax" "ez56" "e56f";
  let bmd := bmd.add_arcedge bmd ["v5f"; "v6f"] "outletFront56" p56ef in
  p56eb ← Vertex_ self "ex56" "negYmax" "ez56" "e56b";
  let bmd := bmd.add_arcedge bmd ["v5b"; "v6b"] "outletBack56" p56eb in
  p67ef ← Vertex_ self "ex67" "posYmax" "ez67" "e67f";
  let bmd := bmd.add_arcedge bmd ["v6f"; "v7f"] "outletFront67" p67ef in
  p67eb ← Vertex_ self "ex67" "negYmax" "ez67" "e67b";
  let bmd := bmd.add_arcedge bmd ["v6b"; "v7b"] "outletBack67" p67eb in
  p78ef ← Vertex_ self "ex78" "posYmax" "ez78" "e78f";
  let bmd := bmd.add_arcedge bmd ["v7f"; "v8f"] "outletFront78" p78ef in
  p78eb ← Vertex_ self "ex78" "negYmax" "ez78" "e78f";
  let bmd := bmd.add_arcedge bmd ["v7b"; "v8b"] "outletBack78" p78eb in
  p1011ef ← Vertex_ self "ex1011" "posYmax" "ez1011" "e1011f";
  let bmd := bmd.add_arcedge bmd ["v10f"; "v1f"] "inletFront1011" p1011ef in
  p1011eb ← Vertex_ self "ex1011" "negYmax" "ez1011" "e1011b";
  let bmd := bmd.add_arcedge bmd ["v10b"; "v1b"] "inletBack1011" p1011eb in
  p1011cf ← Vertex_ self "cx1011" "posYmax" "cz1011" "c1011f";
  let bmd := bmd.add_arcedge bmd ["c10f"; "c1f"] "capsuleFront1011" p1011cf in
  p1011cb ← Vertex_ self "cx1011" "negYmax" "cz1011" "c1011b";
  let bmd := bmd.add_arcedge bmd ["c10b"; "c1b"] "capsuleBack1011" p1011cb in
  (* Add circles splines *)
  '(inletSplineF, inletSplineB) ← spline_loop self "ex23" "ez23" "ifs" "ibs";
  let bmd := bmd.add_splineedge bmd ["v2f"; "v3f"] "inletFrontSpline" inletSplineF in
  let bmd := bmd.add_splineedge bmd ["v2b"; "v3b"] "inletBackSpline" inletSplineB in
  '(outletSplineF, outletSplineB) ← spline_loop self "ex34" "ez34" "ofs" "obs";
  let bmd := bmd.add_splineedge bmd ["v4f"; "v3f"] "outletFrontSpline" outletSplineF in
  let bmd := bmd.add_splineedge bmd ["v4b"; "v3b"] "outletBackSpline" outletSplineB in
  '(outletSplineFbottom, outletSplineBbottom) ← spline_loop self "ex89" "ez89" "ofs" "obs";
  let bmd := bmd.add_splineedge bmd ["v8f"; "v9f"] "outletFrontSplineBottom" outletSplineFbottom in
  let bmd := bmd.add_splineedge bmd ["v8b"; "v9b"] "outletBackSplineBottom" outletSplineBbottom in
  '(inletSplineFb, inletSplineBb) ← spline_loop self "ex910" "ez910" "ifs" "ibs";
  let bmd := bmd.add_splineedge bmd ["v10f"; "v9f"] "inletFrontSplineb" inletSplineFb in
  let bmd := bmd.add_splineedge bmd ["v10b"; "v9b"] "inletBackSplineb" inletSplineBb in
  fi ← mapM (λ b, bmd.face b "w") [b1; b2; b3; b8; b9; b10];
  let bmd := bmd.add_boundary bmd "patch" "inlet" fi in
  fo ← mapM (λ b, bmd.face b "w") [b4; b5; b6; b7];
  let bmd := bmd.add_boundary bmd "patch" "outlet" fo in
  fw ← mapM (λ b, bmd.face b "e") [b1; b2; b3; b4; b5; b6; b7; b8; b9; b10];
  let bmd := bmd.add_boundary bmd "wall" "wall" fw in
  Some bmd.

End Capsule2D.

(** ** The script: [if __name__ == "__main__"] *)

Definition pipeline (diameter : R) : option bmd.BlockMeshDict :=
  let mesh := Capsule2D.init diameter in
  mesh ← Capsule2D.main_points mesh;
  mesh ← Capsule2D.inlet_spline mesh;
  mesh ← Capsule2D.outlet_spline mesh;
  mesh ← Capsule2D.capsule_points mesh;
  mesh ← Capsule2D.bottom_points mesh;
  Capsule2D.to_blockMesh_dict2 mesh.

Definition main : option bmd.BlockMeshDict :=
  let diameter := 0.4 in
  pipeline diameter.

(** ** Circumferential cell counts *)

Import bmd.

(** The exact rational value of a finite binary64 number. *)
Definition Q_of_float (f : float) : option Q :=
  match Prim2SF f with
  | S754_zero _ => Some 0%Q
  | S754_finite s m e =>
      let q := (inject_Z (Z.pos m) * Qpower 2 e)%Q in
      Some (if s then Qopp q else q)
  | S754_infinity _ => None
  | S754_nan => None
  end.

(** The fractional apportionment [0.5 * Nz * angle / span] of a block, as an
    exact rational. *)
Definition apportionment (Nz : Z) (c : Capsule2D.circ_cells) : option Q :=
  a ← Q_of_float (Capsule2D.angle c);
  s ← Q_of_float (Capsule2D.span c);
  Some ((1 # 2) * inject_Z Nz * a / s)%Q.

(** Truncation of a rational towards zero. *)
Definition Qtrunc (q : Q) : Z := Z.quot (Qnum q) (Z.pos (Qden q)).

(** The ten cell-count expressions in ring order. *)
Definition ring_cells : list Capsule2D.circ_cells :=
  [Capsule2D.cells_b1; Capsule2D.cells_b2; Capsule2D.cells_b3;
   Capsule2D.cells_b4; Capsule2D.cells_b5; Capsule2D.cells_b6;
   Capsule2D.cells_b7; Capsule2D.cells_b8; Capsule2D.cells_b9;
   Capsule2D.cells_b10].

(** The circumferential (third-axis) cell count of a block. *)
Definition circ (h : HexBlock) : Z := (hb_cells h).2.

Definition circ_counts (b : BlockMeshDict) : list Z :=
  (λ kh, circ kh.2) <$> blocks b.

Definition Zsum (l : list Z) : Z := foldr Z.add 0%Z l.

Definition circ_total (b : BlockMeshDict) : Z := Zsum (circ_counts b).

(** The widest reading of "the tolerance introduced by truncation and the
    offsets": less than one cell per block is lost by truncation, and each
    offset moves the count by its absolute value. *)
Definition circ_tolerance : Z :=
  (Z.of_nat (length ring_cells) +
   Zsum ((λ c, Z.abs (Capsule2D.offset c)) <$> ring_cells))%Z.

(** [n] is the truncated apportionment of [c] plus the offset of [c]. *)
Definition truncated_plus_offset (Nz : Z) (c : Capsule2D.circ_cells) (n : Z)
  : Prop :=
  ∃ q, apportionment Nz c = Some q ∧ n = (Qtrunc q + Capsule2D.offset c)%Z.

(** ** Guarded evaluation of [splines]

    numpy does not raise on a division by zero: the quotient is an infinity
    or a NaN and every later result is undefined.  The guarded evaluation
    follows the expressions of [splines] operation by operation and returns
    [None] as soon as a division by zero, or the tangent at a pole, is met. *)

Definition div_checked (a b : R) : option R :=
  if Req_dec_T b 0 then None else Some (a / b).

Definition tan_checked (t : R) : option R :=
  if Req_dec_T (cos t) 0 then None else Some (tan t).

Definition splines_coeffs_checked (x0 teta0 rad diameter posZmax : R)
  : option (R * R * R * R) :=
  q1 ← div_checked 3 (1 * x0 ^ 2);
  t1 ← tan_checked teta0;
  q2 ← div_checked x0 (3 * t1);
  let b := q1 * (rad * sin teta0 + q2 - (posZmax / 0.4) * diameter) in
  q3 ← div_checked 1 (3 * x0 ^ 2);
  t2 ← tan_checked teta0;
  q4 ← div_checked (- 1) t2;
  let a := q3 * (q4 - (2 * b * x0)) in
  let c := 0.0 in
  let d := (posZmax / 0.4) * diameter in
  Some (a, b, c, d).

Definition splines_checked (x0 : R) (x : list R)
    (teta0 rad diameter posZmax : R) : option (list R) :=
  '(a, b, c, d) ← splines_coeffs_checked x0 teta0 rad diameter posZmax;
  Some (map (λ x, a * x ^ 3 + b * x ^ 2 + c * x + d) x).

(** The inputs on which [splines] is defined: [x0] is not zero, and the
    angle [teta0] (in radians, as [splines] receives it) is not an integer
    multiple of 180 degrees and its tangent is finite. *)
Definition splines_pre (x0 teta0 : R) : Prop :=
  x0 ≠ 0 ∧ (∀ k : Z, teta0 ≠ IZR k * PI) ∧ cos teta0 ≠ 0.

(** ** Polar angle of a vector *)

(** [phi] (in degrees) is an angle of the vector [(dx, dz)], measured
    counter-clockwise from the positive x-axis: the vector is its length
    times the unit vector at [phi]. *)
Definition is_angle_deg (dx dz phi : R) : Prop :=
  let rho := sqrt (dx ^ 2 + dz ^ 2) in
  dx = rho * cos (np.deg2rad phi) ∧ dz = rho * sin (np.deg2rad phi).

(** ** Mirroring of the top half *)

(** [bottom_points] is a straight-line program of assignments
    [self.dst = +self.src] and [self.dst = -self.src]. *)
Inductive assignment :=
  | APos (dst src : string)
  | ANeg (dst src : string).

Definition a_dst (a : assignment) : string :=
  match a with APos d _ | ANeg d _ => d end.

Definition a_src (a : assignment) : string :=
  match a with APos _ s | ANeg _ s => s end.

Definition a_op (a : assignment) : value → option value :=
  match a with APos _ _ => pos | ANeg _ _ => neg end.

Definition assign (a : assignment) (self : obj) : option obj :=
  match a with
  | APos d s => assign_pos d s self
  | ANeg d s => assign_neg d s self
  end.

Fixpoint assign_all (p : list assignment) (self : obj) : option obj :=
  match p with
  | [] => Some self
  | a :: p => self ← assign a self; assign_all p self
  end.

(** The bottom-half points with their top-half counterparts:
    [(x_bottom, z_bottom, x_top, z_top)], first the far-field ring, then the
    capsule. *)
Definition mirror_pairs : list (string * string * string * string) :=
  [("ex67", "ez67", "ex56", "ez56");
   ("ex7", "ez7", "ex5", "ez5");
   ("ex78", "ez78", "ex45", "ez45");
   ("ex8", "ez8", "ex4", "ez4");
   ("ex89", "ez89", "ex34", "ez34");
   ("ex9", "ez9", "ex3", "ez3");
   ("ex910", "ez910", "ex23", "ez23");
   ("ex10", "ez10", "ex2", "ez2");
   ("ex1011", "ez1011", "ex12", "ez12");
   ("cx7", "cz7", "cx5", "cz5");
   ("cx8", "cz8", "cx4", "cz4");
   ("cx9", "cz9", "cx3", "cz3");
   ("cx10", "cz10", "cx2", "cz2");
   ("cx1011", "cz1011", "cx12", "cz12")].

Definition mirror_program : list assignment :=
  flat_map (λ '(bx, bz, tx, tz), [APos bx tx; ANeg bz tz]) mirror_pairs.

(** In [bottom] the point [(bx, bz)] is the mirror image of the point
    [(tx, tz)] of [top]: same x, negated z, and negating its z once more
    gives the z of the top point back. *)
Definition mirrored (top bottom : obj)
    (p : string * string * string * string) : Prop :=
  let '(bx, bz, tx, tz) := p in
  ∃ x z mz,
    top !! tx = Some x ∧ top !! tz = Some z ∧
    bottom !! bx = Some x ∧
    bottom !! bz = Some mz ∧ neg z = Some mz ∧ neg mz = Some z.

(** The object of the script when it calls [bottom_points]. *)
Definition top_half (diameter : R) : option obj :=
  let mesh := Capsule2D.init diameter in
  mesh ← Capsule2D.main_points mesh;
  mesh ← Capsule2D.inlet_spline mesh;
  mesh ← Capsule2D.outlet_spline mesh;
  Capsule2D.capsule_points mesh.

Definition reference_top : obj := default ∅ (top_half 0.4).

Definition reference_bottom : obj :=
  default ∅ (Capsule2D.bottom_points reference_top).

(** ** Observations of the built topology *)

(** The interpolation points of an edge. *)
Definition edge_points (e : Edge) : list Vertex :=
  match e with
  | ArcEdge _ _ interVertex => [interVertex]
  | SplineEdge _ _ points => points
  end.

Definition is_arc (e : Edge) : bool :=
  match e with ArcEdge _ _ _ => true | SplineEdge _ _ _ => false end.

Definition arc_edges (b : BlockMeshDict) : list Edge :=
  filter (λ e, is_arc e = true) (snd <$> edges b).

Definition spline_edges (b : BlockMeshDict) : list Edge :=
  filter (λ e, is_arc e = false) (snd <$> edges b).

(** Every named point of a build: the vertices of the topology, the
    midpoints of the arc edges and the points of the spline edges. *)
Definition named_points (b : BlockMeshDict) : list Vertex :=
  (snd <$> vertices b) ++ flat_map edge_points (snd <$> edges b).

(** The z-coordinate that the script gives the last point, [ofs9], of the
    top outlet spline segment: the cubic of [outlet_spline] at the last
    sample of [np.linspace(self.ex4, 0, 10)]. *)
Definition ofs9_z (diameter : R) : R :=
  let x4 := (Capsule2D.circle 0 0 (4.0 / 0.4 * diameter) 75).1 in
  Capsule2D.splines_z x4 (np.deg2rad 75) (4 / 0.4 * diameter) diameter 4.0
    (nth 9 (np.linspace x4 0 10) 0).

(** The counts of C5. *)
Definition artifact_counts (b : BlockMeshDict)
    (n_vertices n_blocks n_arcs n_spline_points : nat)
    (patches : list string) : Prop :=
  length (vertices b) = n_vertices ∧
  length (blocks b) = n_blocks ∧
  length (arc_edges b) = n_arcs ∧
  spline_edges b ≠ [] ∧
  Forall (λ e, length (edge_points e) = n_spline_points) (spline_edges b) ∧
  fst <$> boundaries b = patches.

(** The same counts as data. *)
Definition artifact_summary (b : BlockMeshDict)
  : nat * nat * nat * list nat * list string :=
  (length (vertices b), length (blocks b), length (arc_edges b),
   (λ e, length (edge_points e)) <$> spline_edges b,
   fst <$> boundaries b).

(** The face references of a patch, as (block, side). *)
Definition face_ref (f : Face) : string * string := (f_block f, f_index f).

Definition patch_faces (b : BlockMeshDict) (patch : string)
  : option (list (string * string)) :=
  bd ← dict_get patch (boundaries b);
  Some (face_ref <$> bd_faces bd).

(** All face references of a build, each with the name of its patch. *)
Definition all_face_refs (b : BlockMeshDict) : list (string * Face) :=
  flat_map (λ bd, (λ f, (bd.1, f)) <$> bd_faces bd.2) (boundaries b).

(** The references to the faces of block [blk], as (patch, side). *)
Definition block_refs (b : BlockMeshDict) (blk : string)
  : list (string * string) :=
  (λ pf, (pf.1, f_index pf.2))
    <$> filter (λ pf, f_block pf.2 = blk) (all_face_refs b).

(** Far-field vertices are named [v...], body-contour vertices [c...]. *)
Definition far_field_face (f : Face) : bool :=
  forallb (String.prefix "v") (f_vnames f).

Definition body_face (f : Face) : bool :=
  forallb (String.prefix "c") (f_vnames f).

Definition ring_blocks : list string :=
  ["b1"; "b2"; "b3"; "b4"; "b5"; "b6"; "b7"; "b8"; "b9"; "b10"].

(** The membership of the three patches and the coverage of the ring. *)
Definition boundary_coverage (b : BlockMeshDict) : Prop :=
  fst <$> blocks b = ring_blocks ∧
  patch_faces b "inlet"
  = Some ((λ n, (n, "w"%string)) <$> ["b1"; "b2"; "b3"; "b8"; "b9"; "b10"]) ∧
  patch_faces b "outlet"
  = Some ((λ n, (n, "w"%string)) <$> ["b4"; "b5"; "b6"; "b7"]) ∧
  patch_faces b "wall" = Some ((λ n, (n, "e"%string)) <$> ring_blocks) ∧
  Forall (λ pf, if String.eqb pf.1 "wall" then body_face pf.2 = true
                else far_field_face pf.2 = true) (all_face_refs b) ∧
  Forall (λ blk, ∃ side, (side = "inlet" ∨ side = "outlet")%string ∧
                         block_refs b blk = [(side, "w"); ("wall", "e")]%string)
         ring_blocks.

(** The same facts as data. *)
Definition boundary_summary (b : BlockMeshDict) :=
  (fst <$> blocks b,
   patch_faces b "inlet", patch_faces b "outlet", patch_faces b "wall",
   (λ pf, (String.eqb pf.1 "wall", body_face pf.2, far_field_face pf.2))
     <$> all_face_refs b,
   block_refs b <$> ring_blocks).

(** ** The object of the script after [bottom_points] *)

Definition script_state (diameter : R) : option obj :=
  mesh ← top_half diameter;
  Capsule2D.bottom_points mesh.

(** The radii and the centre that [inlet_circle] and [outlet_circle] compute
    from the attributes set by [__init__]. *)
Definition r_inlet (diameter : R) : R := (4.0 - (- 2 / 0.4 * diameter)) / 0.4 * diameter.

Definition r_outlet (diameter : R) : R := 4.0 / 0.4 * diameter.

Definition x_e6 (diameter : R) : R := (4.0 / 0.4) * diameter.

(** The scalar far-field points, by attribute names. *)
Definition far_field_points : list (string * string) :=
  [("ex1", "ez1"); ("ex12", "ez12"); ("ex2", "ez2"); ("ex3", "ez3");
   ("ex4", "ez4"); ("ex45", "ez45"); ("ex5", "ez5"); ("ex56", "ez56");
   ("ex6", "ez6"); ("ex67", "ez67"); ("ex7", "ez7"); ("ex78", "ez78");
   ("ex8", "ez8"); ("ex9", "ez9"); ("ex10", "ez10"); ("ex1011", "ez1011")].

(** The mirror image of a point in the x-axis. *)
Definition mirror_z (p : R * R) : R * R := (p.1, - p.2).

(** Their coordinates as the script computes them. *)
Definition far_field_coords (d : R) : list (R * R) :=
  let inlet := Capsule2D.circle (x_e6 d) 0 (r_inlet d) in
  let outlet := Capsule2D.circle 0 0 (r_outlet d) in
  [(- 2 / 0.4 * d, 0.0); inlet 170; inlet 155; (0, (4.0 / 0.4) * d);
   outlet 75; outlet 60; outlet 45; outlet 23;
   (x_e6 d, 0); mirror_z (outlet 23); mirror_z (outlet 45);
   mirror_z (outlet 60); mirror_z (outlet 75);
   (0, - ((4.0 / 0.4) * d)); mirror_z (inlet 155); mirror_z (inlet 170)].

(** The point [p] of the object [m] has the coordinates [q]. *)
Definition point_at (m : obj) (p : string * string) (q : R * R) : Prop :=
  get_num m p.1 = Some q.1 ∧ get_num m p.2 = Some q.2.

(** The point [p] of [m] lies at squared distance [r2] from [(cx, cz)]. *)
Definition at_sqdist (m : obj) (cx cz r2 : R) (p : string * string) : Prop :=
  ∃ x z, get_num m p.1 = Some x ∧ get_num m p.2 = Some z ∧
         (x - cx) ^ 2 + (z - cz) ^ 2 = r2.

(** The far-field points on the circle around the origin, and the ones on
    the circle around [e6]. *)
Definition outlet_ring : list (string * string) :=
  [("ex3", "ez3"); ("ex4", "ez4"); ("ex45", "ez45"); ("ex5", "ez5");
   ("ex56", "ez56"); ("ex6", "ez6"); ("ex67", "ez67"); ("ex7", "ez7");
   ("ex78", "ez78"); ("ex8", "ez8"); ("ex9", "ez9")].

Definition inlet_ring : list (string * string) :=
  [("ex12", "ez12"); ("ex2", "ez2"); ("ex10", "ez10"); ("ex1011", "ez1011")].

(** The mirrored far-field points as samples of the two circles at negated
    angles. *)
Definition mirrored_samples (d : R) : list (string * string * (R * R)) :=
  let inlet := Capsule2D.circle (x_e6 d) 0 (r_inlet d) in
  let outlet := Capsule2D.circle 0 0 (r_outlet d) in
  [("ex67", "ez67", outlet (- 23)); ("ex7", "ez7", outlet (- 45));
   ("ex78", "ez78", outlet (- 60)); ("ex8", "ez8", outlet (- 75));
   ("ex10", "ez10", inlet (- 155)); ("ex1011", "ez1011", inlet (- 170))].

(** The spline segments of the script: the sample abscissas and the cubic
    evaluated on them. *)
Definition x2_of (d : R) : R := (Capsule2D.circle (x_e6 d) 0 (r_inlet d) 155).1.

Definition x4_of (d : R) : R := (Capsule2D.circle 0 0 (r_outlet d) 75).1.

Definition inlet_segment (d : R) : list R * list R :=
  let xs := np.linspace (x2_of d) 0 10 in
  (xs, Capsule2D.splines (x2_of d) xs (np.deg2rad 155)
         ((4 - (- 2 / 0.4 * d)) / 0.4 * d) d 4.0).

Definition outlet_segment (d : R) : list R * list R :=
  let xs := np.linspace (x4_of d) 0 10 in
  (xs, Capsule2D.splines (x4_of d) xs (np.deg2rad 75) (4 / 0.4 * d) d 4.0).

(** The segment [(xs, zs)] starts at the point [a] of [m] and ends at the
    point [b]. *)
Definition joins (m : obj) (xs zs : list R) (a b : string * string) : Prop :=
  ∃ xa za xb zb,
    head xs = Some xa ∧ head zs = Some za ∧
    last xs = Some xb ∧ last zs = Some zb ∧
    point_at m a (xa, za) ∧ point_at m b (xb, zb).

Definition strictly_decreasing (xs : list R) : Prop :=
  ∀ i j a b, (i < j)%nat → xs !! i = Some a → xs !! j = Some b → b < a.

Definition strictly_increasing (xs : list R) : Prop :=
  ∀ i j a b, (i < j)%nat → xs !! i = Some a → xs !! j = Some b → a < b.

(** ** Structure of the built topology *)

Definition edge_vnames (e : Edge) : list string :=
  match e with
  | ArcEdge vnames _ _ => vnames
  | SplineEdge vnames _ _ => vnames
  end.

(** The eight corner names of every block, in ring order. *)
Definition block_corners (b : BlockMeshDict) : list (list string) :=
  (λ kh, hb_vnames kh.2) <$> blocks b.

(** A name is declared when [add_vertex] has been called with it. *)
Definition declared (b : BlockMeshDict) (n : string) : Prop :=
  n ∈ fst <$> vertices b.

(** Every vertex name that a block, an edge or a boundary face refers to. *)
Definition references (b : BlockMeshDict) : list string :=
  concat (block_corners b)
  ++ concat ((λ ke, edge_vnames ke.2) <$> edges b)
  ++ concat ((λ pf, f_vnames pf.2) <$> all_face_refs b).

Definition well_formed_references (b : BlockMeshDict) : Prop :=
  Forall (λ h, length h = 8%nat ∧ NoDup h) (block_corners b) ∧
  Forall (declared b) (references b).

(** The corner names that two blocks have in common. *)
Definition shared (h h' : list string) : list string :=
  filter (λ n, n ∈ h') h.

(** Blocks [i] and [j] of a ring of [n] blocks are neighbours. *)
Definition neighbours (n i j : nat) : Prop :=
  j = (S i mod n)%nat ∨ i = (S j mod n)%nat.

(** The ring condition on two blocks [i] and [j] with corners [h] and [h']:
    the near side of a block (its first four corners) is the far side (the
    last four) of the next block, neighbours share these four corners and
    nothing else, and other blocks share no corner. *)
Definition ring_link (n i j : nat) (h h' : list string) : Prop :=
  (j = (S i mod n)%nat → drop 4 h' = take 4 h) ∧
  (i ≠ j →
   length (shared h h') = if decide (neighbours n i j) then 4%nat else 0%nat).

Definition ring_closed (cs : list (list string)) : Prop :=
  ∀ i j h h', cs !! i = Some h → cs !! j = Some h' →
              ring_link (length cs) i j h h'.

(** The same condition with the indices bounded, which can be decided. *)
Definition ring_closed_bounded (cs : list (list string)) : Prop :=
  Forall (λ i, Forall (λ j,
            ring_link (length cs) i j (default [] (cs !! i))
                      (default [] (cs !! j)))
          (seq 0 (length cs))) (seq 0 (length cs)).

(** The pair of corners [k] and [k + 4] of a block: an edge of the block
    that runs along the ring. *)
Definition ring_edge (h : list string) (k : nat) : option (list string) :=
  a ← h !! k; c ← h !! (k + 4)%nat; Some [a; c].

(** The end points [vn] of an edge are the two ends of a ring edge of some
    block, in either order. *)
Definition along_ring (cs : list (list string)) (vn : list string) : Prop :=
  Exists (λ h, Exists (λ k, ring_edge h k = Some vn
                            ∨ ring_edge h k = Some (reverse vn))
                      (seq 0 4)) cs.

(** ** Front and back copies *)

Fixpoint pair_up {A} (l : list A) : list (A * A) :=
  match l with
  | a :: b :: l' => (a, b) :: pair_up l'
  | _ => []
  end.

(** The names of the 22 stations; each has a front vertex [..f] and a back
    vertex [..b]. *)
Definition stations : list string :=
  ["v0"; "v1"; "v2"; "v3"; "v4"; "v5"; "v6"; "v7"; "v8"; "v9"; "v10";
   "c1"; "c12"; "c2"; "c3"; "c4"; "c5"; "c6"; "c7"; "c8"; "c9"; "c10"].

(** [p] and [q] are a front and a back copy: same x and z, y on the two
    sides [yf] and [yb]. *)
Definition front_back (yf yb : R) (p q : Vertex) : Prop :=
  vx p = vx q ∧ vz p = vz q ∧ vy p = yf ∧ vy q = yb.

(** ** Cell counts as a function of [Nz] *)

Definition ring_counts (Nz : Z) : option (list Z) :=
  mapM (Capsule2D.circ_count Nz) ring_cells.

Definition counts_positive_from_20 (Nz : Z) : Prop :=
  match ring_counts Nz with
  | Some l => Forall (λ n, (0 < n)%Z) l ↔ (20 <= Nz)%Z
  | None => False
  end.

(** ** Attributes read by the vertex list of [to_blockMesh_dict2] *)

Definition vertex_attributes : list string :=
  ["posYmax"; "negYmax";
   "ex0"; "ex1"; "ex2"; "ex3"; "ex4"; "ex5"; "ex6";
   "ez0"; "ez1"; "ez2"; "ez3"; "ez4"; "ez5"; "ez6";
   "cx1"; "cx12"; "cx2"; "cx3"; "cx4"; "cx5"; "cx6";
   "cz1"; "cz12"; "cz2"; "cz3"; "cz4"; "cz5"; "cz6";
   "ex7"; "ex8"; "ex9"; "ex10"; "ez7"; "ez8"; "ez9"; "ez10";
   "cx7"; "cx8"; "cx9"; "cx10"; "cz7"; "cz8"; "cz9"; "cz10"].

(** ** The body contour *)

Definition capsule_attributes : list string :=
  ["cx1"; "cz1"; "cx12"; "cz12"; "cx2"; "cz2"; "cx3"; "cz3";
   "cx4"; "cz4"; "cx5"; "cz5"; "cx6"; "cz6"].

(** The coordinates that [capsule_points] assigns to them. *)
Definition capsule_coords (d : R) : list R :=
  let ratio := d / 0.4 in
  [- 0.120 * ratio; 0.0; - 0.107938 * ratio; 0.068404 * ratio;
   - 0.080 * ratio; 0.120 * ratio; - 0.040 * ratio; 0.160 * ratio;
   0.0; d / 2; 0.080 * ratio; 0.120 * ratio; 0.080 * ratio; 0.000 * ratio].

(** ** Decision procedures for the structural properties *)

#[local] Instance declared_dec (b : BlockMeshDict) (n : string) :
  Decision (declared b n).
Proof. unfold declared. apply _. Defined.

#[local] Instance well_formed_references_dec (b : BlockMeshDict) :
  Decision (well_formed_references b).
Proof. unfold well_formed_references. apply _. Defined.

#[local] Instance neighbours_dec (n i j : nat) : Decision (neighbours n i j).
Proof. unfold neighbours. apply _. Defined.

#[local] Instance ring_link_dec (n i j : nat) (h h' : list string) :
  Decision (ring_link n i j h h').
Proof. unfold ring_link. apply _. Defined.

#[local] Instance ring_closed_bounded_dec (cs : list (list string)) :
  Decision (ring_closed_bounded cs).
Proof. unfold ring_closed_bounded. apply _. Defined.

#[local] Instance along_ring_dec (cs : list (list string)) (vn : list string) :
  Decision (along_ring cs vn).
Proof. unfold along_ring. apply _. Defined.

#[local] Instance counts_positive_from_20_dec (Nz : Z) :
  Decision (counts_positive_from_20 Nz).
Proof. unfold counts_positive_from_20. destruct (ring_counts Nz); apply _. Defined.

(** ** Evaluation of the pipeline

    The pipeline is a closed program up to the diameter, which only occurs
    inside real-number expressions: its observations are computed. *)

(** The pipeline runs to its end for every diameter, and the cell counts
    it gives the ten blocks do not depend on the diameter. *)
Lemma pipeline_circ_counts (d : R) :
  circ_counts <$> pipeline d = Some [26; 19; 16; 33; 27; 27; 33; 16; 19; 26]%Z.
Proof. vm_compute. reflexivity. Qed.

Lemma pipeline_is_Some (d : R) : ∃ b, pipeline d = Some b.
Proof.
  pose proof (pipeline_circ_counts d) as H.
  destruct (pipeline d) as [b|]; [exists b; reflexivity | discriminate H].
Qed.

(** An observation [f] of the built topology that evaluates to [v]. *)
Lemma pipeline_observe {A} (f : BlockMeshDict → A) (v : A) (d : R) :
  f <$> pipeline d = Some v → ∃ b, pipeline d = Some b ∧ f b = v.
Proof.
  destruct (pipeline d) as [b|]; simpl; intros H; [|discriminate H].
  exists b. split; [reflexivity | congruence].
Qed.

(** ** Cell counts along the ring *)

(** C2, as stated, fails: with diameter 0.4 the ten circumferential counts
    add up to 242, which is further from [Nz = 121] than truncation and the
    offsets can account for. *)
Lemma circ_total_not_Nz :
  ¬ (∃ b, main = Some b ∧ (Z.abs (circ_total b - 121) <= circ_tolerance)%Z).
Proof.
  intros (b & Hb & Htol).
  destruct (pipeline_observe circ_counts _ (0.4) (pipeline_circ_counts _))
    as (b' & Hb' & Hc).
  unfold main in Hb. rewrite Hb' in Hb. injection Hb as ->.
  unfold circ_total in Htol. rewrite Hc in Htol. clear Hb' Hc.
  vm_compute in Htol. apply Htol. reflexivity.
Qed.

(** C2, amended: with diameter 0.4 (so [Nz = 121]) the circumferential cell
    counts of the ten blocks add up to exactly [2 * Nz = 242]; each half of
    the ring, [b1..b5] and [b6..b10], adds up to exactly [Nz = 121]. *)
Theorem circ_total_twice_Nz :
  ∃ b, main = Some b ∧
       circ_total b = (2 * 121)%Z ∧
       Zsum (take 5 (circ_counts b)) = 121%Z ∧
       Zsum (drop 5 (circ_counts b)) = 121%Z.
Proof.
  destruct (pipeline_observe circ_counts _ (0.4) (pipeline_circ_counts _))
    as (b & Hb & Hc).
  exists b. split; [unfold main; exact Hb|].
  unfold circ_total. rewrite Hc. clear Hb Hc.
  vm_compute. repeat split; reflexivity.
Qed.

(** C6, as stated, fails: block [b4] adds 4 to its truncated count. *)
Lemma offsets_not_within_minus4_plus2 :
  ¬ (∀ c, c ∈ ring_cells → (-4 <= Capsule2D.offset c <= 2)%Z).
Proof.
  intros H. specialize (H Capsule2D.cells_b4).
  assert (Hin : Capsule2D.cells_b4 ∈ ring_cells)
    by (unfold ring_cells; repeat constructor).
  apply H in Hin. simpl in Hin. lia.
Qed.

(** C6, amended: each of the ten circumferential cell counts is the
    fractional apportionment [0.5 * Nz * angle / span] truncated to an
    integer, plus a fixed integer offset, and every offset lies in the range
    -4..+4 inclusive. *)
Theorem circ_counts_truncated_plus_offset (d : R) :
  ∃ b, pipeline d = Some b ∧
       Forall2 (λ n c, truncated_plus_offset 121 c n ∧
                       (-4 <= Capsule2D.offset c <= 4)%Z)
               (circ_counts b) ring_cells.
Proof.
  destruct (pipeline_observe circ_counts _ d (pipeline_circ_counts d))
    as (b & Hb & Hc).
  exists b. split; [exact Hb|]. rewrite Hc. clear Hb Hc. unfold ring_cells.
  repeat (constructor; [split; [eexists; split;
    [vm_compute; reflexivity | vm_compute; reflexivity] | simpl; lia] |]).
  constructor.
Qed.

(** ** The spline fit *)

Lemma div_checked_Some (a b : R) : b ≠ 0 → div_checked a b = Some (a / b).
Proof. intros Hb. unfold div_checked. destruct (Req_dec_T b 0); [contradiction | reflexivity]. Qed.

Lemma tan_checked_Some (t : R) : cos t ≠ 0 → tan_checked t = Some (tan t).
Proof. intros Hc. unfold tan_checked. destruct (Req_dec_T (cos t) 0); [contradiction | reflexivity]. Qed.

Lemma not_multiple_of_PI (t : R) : (∀ k : Z, t ≠ IZR k * PI) ↔ sin t ≠ 0.
Proof.
  split.
  - intros H Hs. destruct (sin_eq_0_0 t Hs) as [k Hk]. exact (H k Hk).
  - intros H k Hk. apply H. apply sin_eq_0_1. exists k. exact Hk.
Qed.

Lemma tan_neq_0 (t : R) : cos t ≠ 0 → sin t ≠ 0 → tan t ≠ 0.
Proof.
  intros Hc Hs Ht. unfold tan in Ht.
  apply Rmult_integral in Ht. destruct Ht as [Ht | Ht]; [tauto|].
  exact (Rinv_neq_0_compat _ Hc Ht).
Qed.

Lemma tan_eq_0_sin (t : R) : tan t ≠ 0 → sin t ≠ 0.
Proof. intros Ht Hs. apply Ht. unfold tan. rewrite Hs. lra. Qed.

Lemma splines_pre_tan (x0 teta0 : R) :
  splines_pre x0 teta0 → x0 ≠ 0 ∧ cos teta0 ≠ 0 ∧ tan teta0 ≠ 0.
Proof.
  intros (Hx & Hk & Hc). repeat split; try assumption.
  apply tan_neq_0; [assumption|]. by apply not_multiple_of_PI.
Qed.

Lemma splines_pre_PI4 : splines_pre 1 (PI / 4).
Proof.
  assert (HPI := PI_RGT_0).
  repeat split.
  - lra.
  - apply not_multiple_of_PI. apply Rgt_not_eq. apply sin_gt_0; lra.
  - apply Rgt_not_eq. apply cos_gt_0; lra.
Qed.

(** On the inputs of [splines_pre] the guarded evaluation computes the
    coefficients of [splines]. *)
Lemma splines_coeffs_checked_Some (x0 teta0 rad diameter posZmax : R) :
  splines_pre x0 teta0 →
  splines_coeffs_checked x0 teta0 rad diameter posZmax
  = Some (Capsule2D.splines_coeffs x0 teta0 rad diameter posZmax).
Proof.
  intros Hpre. destruct (splines_pre_tan _ _ Hpre) as (Hx & Hc & Ht).
  unfold splines_coeffs_checked, Capsule2D.splines_coeffs.
  assert (Hx2 : x0 ^ 2 ≠ 0) by (apply pow_nonzero; exact Hx).
  rewrite (div_checked_Some 3 (1 * x0 ^ 2)) by lra.
  rewrite (tan_checked_Some teta0 Hc).
  cbn [mbind option_bind].
  rewrite (div_checked_Some x0 (3 * tan teta0)) by lra.
  rewrite (div_checked_Some 1 (3 * x0 ^ 2)) by lra.
  rewrite (div_checked_Some (- 1) (tan teta0)) by exact Ht.
  reflexivity.
Qed.

Lemma splines_checked_Some (x0 : R) (x : list R) (teta0 rad diameter posZmax : R) :
  splines_pre x0 teta0 →
  splines_checked x0 x teta0 rad diameter posZmax
  = Some (Capsule2D.splines x0 x teta0 rad diameter posZmax).
Proof.
  intros Hpre. unfold splines_checked.
  rewrite (splines_coeffs_checked_Some _ _ _ _ _ Hpre).
  reflexivity.
Qed.

(** Outside [splines_pre] the guarded evaluation is undefined. *)
Lemma splines_coeffs_checked_is_Some (x0 teta0 rad diameter posZmax : R) :
  is_Some (splines_coeffs_checked x0 teta0 rad diameter posZmax) →
  splines_pre x0 teta0.
Proof.
  unfold splines_coeffs_checked, div_checked, tan_checked.
  intros [v Hv].
  destruct (Req_dec_T (1 * x0 ^ 2) 0) as [|Hx]; [discriminate Hv|].
  destruct (Req_dec_T (cos teta0) 0) as [|Hc]; [discriminate Hv|].
  cbn [mbind option_bind] in Hv.
  destruct (Req_dec_T (3 * tan teta0) 0) as [|Ht]; [discriminate Hv|].
  clear Hv. repeat split.
  - intros ->. apply Hx. simpl. lra.
  - apply not_multiple_of_PI. apply tan_eq_0_sin. lra.
  - exact Hc.
Qed.

(** C3: for every valid input the cubic fitted by [splines], evaluated at
    [x = 0], is [(posZmax / 0.4) * diameter], whatever [a] and [b] are:
    [splines] is defined there, and wherever the array [x] holds 0 the
    returned array holds that value. *)
Theorem splines_at_zero (x0 : R) (x : list R) (teta0 rad diameter posZmax : R)
    (i : nat) :
  splines_pre x0 teta0 →
  x !! i = Some 0 →
  splines_checked x0 x teta0 rad diameter posZmax
  = Some (Capsule2D.splines x0 x teta0 rad diameter posZmax) ∧
  Capsule2D.splines x0 x teta0 rad diameter posZmax !! i
  = Some ((posZmax / 0.4) * diameter).
Proof.
  intros Hpre Hi. split; [apply splines_checked_Some, Hpre|].
  unfold Capsule2D.splines. rewrite list_lookup_fmap, Hi. simpl. f_equal.
  unfold Capsule2D.splines_z, Capsule2D.splines_coeffs. lra.
Qed.

Lemma splines_at_zero_witness :
  splines_checked 1 [1; 0] (PI / 4) 1 1 1
  = Some (Capsule2D.splines 1 [1; 0] (PI / 4) 1 1 1) ∧
  Capsule2D.splines 1 [1; 0] (PI / 4) 1 1 1 !! 1%nat = Some ((1 / 0.4) * 1).
Proof.
  apply (splines_at_zero 1 [1; 0] (PI / 4) 1 1 1 1).
  - exact splines_pre_PI4.
  - reflexivity.
Defined.

(** The derivative of the cubic of [splines]. *)
Lemma splines_z_derivative (x0 teta0 rad diameter posZmax x : R) :
  let '(a, b, c, _) := Capsule2D.splines_coeffs x0 teta0 rad diameter posZmax in
  derivable_pt_lim (Capsule2D.splines_z x0 teta0 rad diameter posZmax) x
    (3 * a * x ^ 2 + 2 * b * x + c).
Proof.
  unfold Capsule2D.splines_z.
  destruct (Capsule2D.splines_coeffs x0 teta0 rad diameter posZmax)
    as [[[a b] c] d].
  pose proof (derivable_pt_lim_id x) as Hid.
  pose proof (derivable_pt_lim_pow x 3) as H3.
  pose proof (derivable_pt_lim_pow x 2) as H2.
  pose proof (derivable_pt_lim_scal _ a _ _ H3) as Ha.
  pose proof (derivable_pt_lim_scal _ b _ _ H2) as Hb.
  pose proof (derivable_pt_lim_scal _ c _ _ Hid) as Hc.
  pose proof (derivable_pt_lim_const d x) as Hd.
  pose proof (derivable_pt_lim_plus _ _ _ _ _
                (derivable_pt_lim_plus _ _ _ _ _
                   (derivable_pt_lim_plus _ _ _ _ _ Ha Hb) Hc) Hd) as H.
  unfold plus_fct, mult_real_fct, fct_cte, id in H.
  replace (3 * a * x ^ 2 + 2 * b * x + c)
    with (a * (INR 3 * x ^ Init.Nat.pred 3) + b * (INR 2 * x ^ Init.Nat.pred 2) + c * 1 + 0)
    by (simpl; lra).
  exact H.
Qed.

(** C4, as stated, fails: at [x0 = 1], [teta0 = 45 degrees] the slope of the
    fitted cubic at [x0] is not [1 / tan teta0 = 1]. *)
Lemma splines_slope_not_inv_tan :
  splines_pre 1 (PI / 4) ∧
  ¬ derivable_pt_lim (Capsule2D.splines_z 1 (PI / 4) 1 1 1) 1
      (1 / tan (PI / 4)).
Proof.
  split; [exact splines_pre_PI4|]. intros H.
  pose proof (splines_z_derivative 1 (PI / 4) 1 1 1 1) as H'.
  unfold Capsule2D.splines_coeffs in H'.
  pose proof (uniqueness_limite _ _ _ _ H H') as E.
  rewrite tan_PI4 in E. lra.
Qed.

(** C4, amended: for every valid input (x0 nonzero, tan(teta0) nonzero and
    finite) the derivative of the fitted cubic at the starting point [x0] is
    [-1 / tan(teta0)], the slope of the tangent of the adjoining circle. *)
Theorem splines_slope_at_x0 (x0 teta0 rad diameter posZmax : R) :
  splines_pre x0 teta0 →
  derivable_pt_lim (Capsule2D.splines_z x0 teta0 rad diameter posZmax) x0
    (- 1 / tan teta0).
Proof.
  intros Hpre. destruct (splines_pre_tan _ _ Hpre) as (Hx & Hc & Ht).
  pose proof (splines_z_derivative x0 teta0 rad diameter posZmax x0) as H.
  unfold Capsule2D.splines_coeffs in H.
  match type of H with derivable_pt_lim _ _ ?l =>
    replace (- 1 / tan teta0) with l; [exact H|] end.
  cbv [Q2R Qnum Qden]. field. lra.
Qed.

Lemma splines_slope_at_x0_witness :
  derivable_pt_lim (Capsule2D.splines_z 1 (PI / 4) 1 1 1) 1
    (- 1 / tan (PI / 4)).
Proof. apply (splines_slope_at_x0 1 (PI / 4) 1 1 1). exact splines_pre_PI4. Defined.

(** C10: the guarded evaluation of [splines] is defined exactly on the
    inputs with [x0 ≠ 0] and [teta0] not an integer multiple of 180 degrees
    with a finite tangent; there it returns what [splines] computes, so the
    undefined branch is not reached, and no other input is rejected. *)
Theorem splines_checked_defined (x0 : R) (x : list R)
    (teta0 rad diameter posZmax : R) :
  (is_Some (splines_checked x0 x teta0 rad diameter posZmax)
   ↔ splines_pre x0 teta0) ∧
  (splines_pre x0 teta0 →
   splines_checked x0 x teta0 rad diameter posZmax
   = Some (Capsule2D.splines x0 x teta0 rad diameter posZmax)).
Proof.
  split; [split|].
  - intros [v Hv]. apply (splines_coeffs_checked_is_Some x0 teta0 rad diameter posZmax).
    unfold splines_checked in Hv.
    destruct (splines_coeffs_checked x0 teta0 rad diameter posZmax);
      [eexists; reflexivity | discriminate Hv].
  - intros Hpre. rewrite (splines_checked_Some _ _ _ _ _ _ Hpre). eexists; reflexivity.
  - apply splines_checked_Some.
Qed.

Lemma splines_checked_defined_witness :
  splines_checked 1 [1; 0] (PI / 4) 1 1 1
  = Some (Capsule2D.splines 1 [1; 0] (PI / 4) 1 1 1).
Proof.
  apply (splines_checked_defined 1 [1; 0] (PI / 4) 1 1 1).
  exact splines_pre_PI4.
Defined.

(** ** Circle sampling *)

Lemma cos_sin_period_Z (x : R) (k : Z) :
  cos (x + 2 * IZR k * PI) = cos x ∧ sin (x + 2 * IZR k * PI) = sin x.
Proof.
  destruct (Z_le_gt_dec 0 k) as [Hk | Hk].
  - rewrite <- (Z2Nat.id k Hk), <- INR_IZR_INZ.
    split; [apply cos_period | apply sin_period].
  - assert (Hk' : (0 <= - k)%Z) by lia.
    assert (E : x = x + 2 * IZR k * PI + 2 * INR (Z.to_nat (- k)) * PI).
    { rewrite INR_IZR_INZ, (Z2Nat.id _ Hk'), opp_IZR. lra. }
    split.
    + rewrite E at 2. symmetry. apply cos_period.
    + rewrite E at 2. symmetry. apply sin_period.
Qed.

(** Two angles with the same cosine and the same sine differ by a whole
    number of turns. *)
Lemma same_direction (a b : R) :
  cos a = cos b → sin a = sin b → ∃ k : Z, a = b + 2 * IZR k * PI.
Proof.
  intros Hc Hs.
  assert (Hs0 : sin (a - b) = 0) by (rewrite sin_minus, Hc, Hs; lra).
  assert (Hc1 : cos (a - b) = 1).
  { rewrite cos_minus, Hc, Hs. pose proof (sin2_cos2 b) as H.
    unfold Rsqr in H. lra. }
  destruct (sin_eq_0_0 _ Hs0) as [n Hn].
  destruct (Z.Even_or_Odd n) as [[m ->] | [m ->]].
  - exists m. rewrite mult_IZR in Hn. lra.
  - exfalso.
    assert (E : a - b = 0 + 2 * IZR m * PI + PI).
    { rewrite Hn, plus_IZR, mult_IZR. lra. }
    rewrite E, neg_cos in Hc1.
    destruct (cos_sin_period_Z 0 m) as [Hp _].
    rewrite Hp, cos_0 in Hc1. lra.
Qed.

Lemma deg2rad_turns (teta : R) (k : Z) :
  np.deg2rad (teta + 360 * IZR k) = np.deg2rad teta + 2 * IZR k * PI.
Proof. unfold np.deg2rad. field. Qed.

(** C9: for a radius [r ≥ 0], the point returned by [circle] lies at
    distance [r] from the centre, and (for [r > 0]) the angles of the vector
    from the centre to the point are exactly the angles equal to [teta]
    modulo 360 degrees. *)
Theorem circle_correct (x0 z0 r teta : R) :
  0 <= r →
  sqrt (((Capsule2D.circle x0 z0 r teta).1 - x0) ^ 2 +
        ((Capsule2D.circle x0 z0 r teta).2 - z0) ^ 2) = r ∧
  (0 < r →
   ∀ phi : R,
     is_angle_deg ((Capsule2D.circle x0 z0 r teta).1 - x0)
                  ((Capsule2D.circle x0 z0 r teta).2 - z0) phi
     ↔ ∃ k : Z, phi = teta + 360 * IZR k).
Proof.
  intros Hr. unfold Capsule2D.circle, is_angle_deg. cbn [fst snd].
  set (t := np.deg2rad teta).
  assert (Ex : x0 + r * cos t - x0 = r * cos t) by lra.
  assert (Ez : z0 + r * sin t - z0 = r * sin t) by lra.
  rewrite Ex, Ez. clear Ex Ez.
  assert (Hlen : sqrt ((r * cos t) ^ 2 + (r * sin t) ^ 2) = r).
  { replace ((r * cos t) ^ 2 + (r * sin t) ^ 2) with (r * r).
    - apply sqrt_square, Hr.
    - pose proof (sin2_cos2 t) as H. unfold Rsqr in H.
      replace ((r * cos t) ^ 2 + (r * sin t) ^ 2)
        with (r * r * (sin t * sin t + cos t * cos t)) by (simpl; lra).
      rewrite H. lra. }
  rewrite Hlen. split; [reflexivity|].
  intros Hpos phi. split.
  - intros [Hx Hz].
    apply Rmult_eq_reg_l in Hx; [|lra].
    apply Rmult_eq_reg_l in Hz; [|lra].
    destruct (same_direction (np.deg2rad phi) t) as [k Hk]; [congruence.. |].
    exists k. unfold t, np.deg2rad in Hk.
    pose proof PI_RGT_0 as HPI.
    apply (Rmult_eq_reg_r (PI / 180)); [|lra]. rewrite Hk. field.
  - intros [k ->]. rewrite deg2rad_turns. fold t.
    destruct (cos_sin_period_Z t k) as [-> ->]. split; reflexivity.
Qed.

Lemma circle_correct_witness :
  sqrt (((Capsule2D.circle 0 0 1 90).1 - 0) ^ 2 +
        ((Capsule2D.circle 0 0 1 90).2 - 0) ^ 2) = 1 ∧
  (0 < 1 →
   ∀ phi : R,
     is_angle_deg ((Capsule2D.circle 0 0 1 90).1 - 0)
                  ((Capsule2D.circle 0 0 1 90).2 - 0) phi
     ↔ ∃ k : Z, phi = 90 + 360 * IZR k).
Proof. apply (circle_correct 0 0 1 90). lra. Defined.

(** ** Mirroring *)

Lemma bottom_points_program (self : obj) :
  Capsule2D.bottom_points self = assign_all mirror_program self.
Proof. reflexivity. Qed.

Lemma assign_inv (a : assignment) (self self' : obj) :
  assign a self = Some self' →
  ∃ v w, self !! a_src a = Some v ∧ a_op a v = Some w ∧
         self' = <[a_dst a := w]> self.
Proof.
  destruct a as [d s | d s]; simpl; unfold assign_pos, assign_neg;
    intros H; destruct (self !! s) as [v|]; simpl in H; try discriminate H.
  - destruct (pos v) as [w|] eqn:E; simpl in H; [|discriminate H].
    exists v, w. by injection H as <-.
  - destruct (neg v) as [w|] eqn:E; simpl in H; [|discriminate H].
    exists v, w. by injection H as <-.
Qed.

(** Attributes that the program does not assign keep their value. *)
Lemma assign_all_frame (p : list assignment) (self self' : obj) (k : string) :
  assign_all p self = Some self' →
  k ∉ a_dst <$> p →
  self' !! k = self !! k.
Proof.
  revert self. induction p as [|a p IH]; intros self H Hk.
  - by injection H as <-.
  - simpl in H. destruct (assign a self) as [self1|] eqn:Ha; [|discriminate H].
    simpl in H. apply not_elem_of_cons in Hk as [Hka Hkp].
    rewrite (IH _ H Hkp).
    destruct (assign_inv _ _ _ Ha) as (v & w & _ & _ & ->).
    by rewrite lookup_insert_ne.
Qed.

(** When no assignment reads or overwrites what another one has written,
    every assignment is visible in the final object. *)
Lemma assign_all_lookup (p : list assignment) (self self' : obj) :
  assign_all p self = Some self' →
  NoDup (a_dst <$> p) →
  Forall (λ a, a_src a ∉ a_dst <$> p) p →
  Forall (λ a, ∃ v w, self !! a_src a = Some v ∧ a_op a v = Some w ∧
                      self' !! a_dst a = Some w) p.
Proof.
  revert self. induction p as [|a p IH]; intros self H Hnd Hsrc; [constructor|].
  simpl in H. destruct (assign a self) as [self1|] eqn:Ha; [|discriminate H].
  simpl in H. rewrite fmap_cons in Hnd, Hsrc.
  apply NoDup_cons in Hnd as [Hda Hnd].
  apply Forall_cons in Hsrc as [Hsa Hsrc].
  destruct (assign_inv _ _ _ Ha) as (v & w & Hv & Hw & ->).
  constructor.
  - exists v, w. repeat split; [assumption..|].
    rewrite (assign_all_frame _ _ _ _ H Hda). apply lookup_insert_eq.
  - assert (Hsrc' : Forall (λ b, a_src b ∉ a_dst <$> p) p).
    { eapply Forall_impl; [exact Hsrc|]. intros b Hb Hin. apply Hb. by right. }
    specialize (IH _ H Hnd Hsrc').
    rewrite Forall_forall in IH, Hsrc. apply Forall_forall. intros b Hb.
    destruct (IH b Hb) as (v' & w' & Hv' & Hw' & Hl).
    exists v', w'. repeat split; [|assumption..].
    rewrite lookup_insert_ne in Hv'; [assumption|].
    intros E. apply (Hsrc b Hb). rewrite E. by left.
Qed.

Lemma pos_Some (v w : value) : pos v = Some w → w = v.
Proof. destruct v; simpl; congruence. Qed.

Lemma neg_involutive (v w : value) : neg v = Some w → neg w = Some v.
Proof.
  destruct v; simpl; intros H; try discriminate H; injection H as <-; simpl.
  - by rewrite Z.opp_involutive.
  - by rewrite Ropp_involutive.
  - f_equal. f_equal. rewrite <- list_fmap_compose.
    induction a as [|r a IH]; [reflexivity|].
    simpl. unfold compose at 1. rewrite Ropp_involutive. by f_equal.
Qed.

Lemma mirror_program_mirrored (self self' : obj) :
  assign_all mirror_program self = Some self' →
  Forall (mirrored self self') mirror_pairs.
Proof.
  intros H.
  assert (Hnd : NoDup (a_dst <$> mirror_program)).
  { apply (bool_decide_unpack _). vm_compute. exact I. }
  assert (Hsrc : Forall (λ a, a_src a ∉ a_dst <$> mirror_program) mirror_program).
  { apply (bool_decide_unpack _). vm_compute. exact I. }
  pose proof (assign_all_lookup _ _ _ H Hnd Hsrc) as Hall.
  clear H Hnd Hsrc. unfold mirror_program, mirror_pairs in *.
  cbn [flat_map app] in Hall.
  repeat match goal with
         | Hall : Forall _ (_ :: _) |- _ =>
             apply Forall_cons in Hall as [? Hall]
         end.
  clear Hall.
  repeat (constructor; [unfold mirrored;
    repeat match goal with
           | H : ∃ v w, _ !! a_src (APos ?bx ?tx) = _ ∧ _ |- context [?bx] =>
               destruct H as (x & x' & Hx & Hpx & Hbx);
               simpl in Hx, Hpx, Hbx; apply pos_Some in Hpx; subst x'
           | H : ∃ v w, _ !! a_src (ANeg ?bz ?tz) = _ ∧ _ |- context [?bz] =>
               destruct H as (z & mz & Hz & Hnz & Hbz);
               simpl in Hz, Hnz, Hbz
           end;
    exists x, z, mz; repeat split; try assumption;
    by apply neg_involutive |]).
  constructor.
Qed.

(** C7: every bottom-half point that [bottom_points] derives has the
    x-coordinate of its top-half counterpart (point 2 on top for point 10
    on the bottom, and so on) and the negated z-coordinate, and negating
    that z-coordinate a second time gives the top-half z-coordinate back. *)
Theorem bottom_points_mirror (self self' : obj) :
  Capsule2D.bottom_points self = Some self' →
  Forall (mirrored self self') mirror_pairs.
Proof.
  intros H. rewrite bottom_points_program in H.
  exact (mirror_program_mirrored self self' H).
Qed.

Lemma top_half_bottom_points (d : R) :
  (λ _, ()) <$> (top_half d ≫= Capsule2D.bottom_points) = Some ().
Proof. vm_compute. reflexivity. Qed.

Lemma default_is_Some {A} (x : option A) (a : A) :
  is_Some x → x = Some (default a x).
Proof. intros [y ->]. reflexivity. Qed.

(** The theorem at the object that the script has built, for diameter 0.4,
    when it calls [bottom_points]. *)
Lemma bottom_points_mirror_witness :
  Forall (mirrored reference_top reference_bottom) mirror_pairs.
Proof.
  apply (bottom_points_mirror reference_top reference_bottom).
  unfold reference_bottom, reference_top. apply default_is_Some.
  pose proof (top_half_bottom_points 0.4) as H.
  destruct (top_half 0.4) as [top|]; [|discriminate H].
  simpl in H. simpl default.
  destruct (Capsule2D.bottom_points top) as [bottom|]; [|discriminate H].
  exists bottom. reflexivity.
Defined.

(** In the script [bottom_points] returns, for every diameter, and mirrors
    every point of the table. *)
Lemma bottom_points_in_script (d : R) :
  ∃ top bottom,
    top_half d = Some top ∧ Capsule2D.bottom_points top = Some bottom ∧
    Forall (mirrored top bottom) mirror_pairs.
Proof.
  pose proof (top_half_bottom_points d) as H.
  destruct (top_half d) as [top|]; [|discriminate H]. simpl in H.
  destruct (Capsule2D.bottom_points top) as [bottom|] eqn:E; [|discriminate H].
  clear H. exists top, bottom. split; [reflexivity|]. split; [exact E|].
  rewrite bottom_points_program in E.
  exact (mirror_program_mirrored top bottom E).
Qed.

(** ** The built topology *)

Lemma pipeline_artifact_summary (d : R) :
  artifact_summary <$> pipeline d
  = Some (44, 10, 16, [10; 10; 10; 10; 10; 10; 10; 10],
          ["inlet"; "outlet"; "wall"])%nat.
Proof. vm_compute. reflexivity. Qed.

Lemma artifact_summary_counts (b : BlockMeshDict)
    (nv nb na np : nat) (l : list nat) (patches : list string) :
  artifact_summary b = (nv, nb, na, l, patches) →
  l ≠ [] → Forall (λ n, n = np) l →
  artifact_counts b nv nb na np patches.
Proof.
  unfold artifact_summary, artifact_counts. intros H Hne Hl.
  injection H as <- <- <- <- <-.
  repeat split; try reflexivity.
  - intros E. apply Hne. by rewrite E.
  - by apply Forall_fmap in Hl.
Qed.

(** C5, as stated, fails: the build has 16 arc edges, not 12. *)
Lemma artifact_counts_not_12_arcs :
  ¬ (∃ b, main = Some b ∧
          artifact_counts b 44 10 12 10 ["inlet"; "outlet"; "wall"]).
Proof.
  intros (b & Hb & _ & _ & Harcs & _).
  destruct (pipeline_observe artifact_summary _ (0.4)
              (pipeline_artifact_summary _)) as (b' & Hb' & Hs).
  unfold main in Hb. rewrite Hb' in Hb. injection Hb as ->. clear Hb'.
  unfold artifact_summary in Hs. injection Hs as _ _ Hs _ _.
  rewrite Harcs in Hs. discriminate Hs.
Qed.

(** C5, amended: for diameter 0.4 the full pipeline adds exactly 44 named
    vertices to the topology, exactly 10 hex blocks, exactly 16 arc edges,
    spline edges whose interpolation segments have exactly 10 points each,
    and exactly 3 boundary patches named inlet, outlet and wall. *)
Theorem artifact_counts_main :
  ∃ b, main = Some b ∧
       artifact_counts b 44 10 16 10 ["inlet"; "outlet"; "wall"].
Proof.
  destruct (pipeline_observe artifact_summary _ (0.4)
              (pipeline_artifact_summary _)) as (b & Hb & Hs).
  exists b. split; [unfold main; exact Hb|]. clear Hb.
  eapply artifact_summary_counts; [exact Hs | discriminate |].
  repeat constructor.
Qed.

Lemma pipeline_vertex_names (d : R) :
  (λ b, fst <$> vertices b) <$> pipeline d
  = Some ["v0f"; "v1f"; "v2f"; "v3f"; "v4f"; "v5f"; "v6f";
          "v0b"; "v1b"; "v2b"; "v3b"; "v4b"; "v5b"; "v6b";
          "c1f"; "c12f"; "c2f"; "c3f"; "c4f"; "c5f"; "c6f";
          "c1b"; "c12b"; "c2b"; "c3b"; "c4b"; "c5b"; "c6b";
          "v7f"; "v8f"; "v9f"; "v10f"; "v7b"; "v8b"; "v9b"; "v10b";
          "c7f"; "c8f"; "c9f"; "c10f"; "c7b"; "c8b"; "c9b"; "c10b"].
Proof. vm_compute. reflexivity. Qed.

(** The 44 vertices of the topology have 44 different names. *)
Lemma vertex_names_NoDup (d : R) :
  ∃ b, pipeline d = Some b ∧ NoDup (fst <$> vertices b).
Proof.
  destruct (pipeline_observe _ _ d (pipeline_vertex_names d)) as (b & Hb & Hn).
  exists b. split; [exact Hb|]. clear Hb. rewrite Hn.
  apply (bool_decide_unpack _). vm_compute. exact I.
Qed.

Lemma pipeline_points_54_55 (d : R) :
  (λ b, ((λ v, (vname v, vy v)) <$> named_points b !! 54%nat,
         (λ v, (vname v, vy v)) <$> named_points b !! 55%nat)) <$> pipeline d
  = Some (Some ("e78f"%string, 0.1), Some ("e78f"%string, - 0.1)).
Proof. vm_compute. reflexivity. Qed.

(** The two bottom spline segments reuse the point names of the two top
    ones. *)
Lemma pipeline_spline_point_names (d : R) :
  (λ b, (λ e, vname <$> edge_points e) <$> spline_edges b) <$> pipeline d
  = Some (let names p := (λ i, p +:+ Py.str i) <$> seq 0 10 in
          [names "ifs"; names "ibs"; names "ofs"; names "obs";
           names "ofs"; names "obs"; names "ifs"; names "ibs"]).
Proof. vm_compute. reflexivity. Qed.

(** C1 does not hold on the code: with diameter 0.4 the build has two
    named points, the midpoints of the arc edges [outletFront78] and
    [outletBack78], that are both named [e78f] and lie on opposite sides
    (y = 0.1 and y = -0.1). *)
Theorem named_points_name_clash :
  ∃ b p q, main = Some b ∧
           p ∈ named_points b ∧ q ∈ named_points b ∧
           vname p = vname q ∧
           (vx p, vy p, vz p) ≠ (vx q, vy q, vz q).
Proof.
  destruct (pipeline_observe _ _ (0.4) (pipeline_points_54_55 _))
    as (b & Hb & Hpq).
  injection Hpq as Hp Hq.
  destruct (named_points b !! 54%nat) as [p|] eqn:Ep; [|discriminate Hp].
  destruct (named_points b !! 55%nat) as [q|] eqn:Eq; [|discriminate Hq].
  simpl in Hp, Hq. injection Hp as Hpn Hpy. injection Hq as Hqn Hqy.
  exists b, p, q. split; [unfold main; exact Hb|]. clear Hb.
  split; [by eapply list_elem_of_lookup_2|].
  split; [by eapply list_elem_of_lookup_2|].
  split; [congruence|].
  intros E. injection E as _ Ey _. rewrite Hpy, Hqy in Ey. lra.
Qed.

Lemma pipeline_points_89_109 (d : R) :
  (λ b, ((λ v, (vname v, vz v)) <$> named_points b !! 89%nat,
         (λ v, (vname v, vz v)) <$> named_points b !! 109%nat)) <$> pipeline d
  = Some (Some ("ofs9"%string, ofs9_z d), Some ("ofs9"%string, - ofs9_z d)).
Proof. vm_compute. reflexivity. Qed.

(** The last sample of the segment is x = 0, where the cubic has the
    far-field height. *)
Lemma ofs9_z_far (d : R) : ofs9_z d = 4.0 / 0.4 * d.
Proof.
  unfold ofs9_z. cbn [nth np.linspace seq map Nat.sub].
  match goal with |- Capsule2D.splines_z _ _ _ _ _ ?x = _ =>
    replace x with 0 by (simpl INR; field) end.
  unfold Capsule2D.splines_z, Capsule2D.splines_coeffs. lra.
Qed.

(** The same defect in the spline loops: with diameter 0.4 the last point
    of the top outlet segment and the last point of the bottom outlet
    segment are both named [ofs9], at z = 4 and z = -4. *)
Lemma spline_points_name_clash :
  ∃ b p q, main = Some b ∧
           p ∈ named_points b ∧ q ∈ named_points b ∧
           vname p = "ofs9"%string ∧ vname q = "ofs9"%string ∧
           vz p = 4 ∧ vz q = - 4.
Proof.
  destruct (pipeline_observe _ _ (0.4) (pipeline_points_89_109 _))
    as (b & Hb & Hpq).
  injection Hpq as Hp Hq.
  destruct (named_points b !! 89%nat) as [p|] eqn:Ep; [|discriminate Hp].
  destruct (named_points b !! 109%nat) as [q|] eqn:Eq; [|discriminate Hq].
  simpl in Hp, Hq. injection Hp as Hpn Hpz. injection Hq as Hqn Hqz.
  exists b, p, q. split; [unfold main; exact Hb|]. clear Hb.
  split; [by eapply list_elem_of_lookup_2|].
  split; [by eapply list_elem_of_lookup_2|].
  rewrite ofs9_z_far in Hpz, Hqz.
  repeat split; [assumption | assumption | lra | lra].
Qed.

Lemma pipeline_boundary_summary (d : R) :
  boundary_summary <$> pipeline d
  = Some
      (ring_blocks,
       Some [("b1", "w"); ("b2", "w"); ("b3", "w");
             ("b8", "w"); ("b9", "w"); ("b10", "w")],
       Some [("b4", "w"); ("b5", "w"); ("b6", "w"); ("b7", "w")],
       Some [("b1", "e"); ("b2", "e"); ("b3", "e"); ("b4", "e"); ("b5", "e");
             ("b6", "e"); ("b7", "e"); ("b8", "e"); ("b9", "e"); ("b10", "e")],
       replicate 10 (false, false, true) ++ replicate 10 (true, true, false),
       [[("inlet", "w"); ("wall", "e")]; [("inlet", "w"); ("wall", "e")];
        [("inlet", "w"); ("wall", "e")]; [("outlet", "w"); ("wall", "e")];
        [("outlet", "w"); ("wall", "e")]; [("outlet", "w"); ("wall", "e")];
        [("outlet", "w"); ("wall", "e")]; [("inlet", "w"); ("wall", "e")];
        [("inlet", "w"); ("wall", "e")]; [("inlet", "w"); ("wall", "e")]]).
Proof. vm_compute. reflexivity. Qed.

Lemma Forall_of_fmap {A B} (f : A → B) (P : B → Prop) (l : list A) :
  Forall P (f <$> l) → Forall (λ x, P (f x)) l.
Proof. intros H. induction l; inversion H; subst; constructor; auto. Qed.

(** C8: the inlet patch is made of the west (far-field) faces of blocks
    b1, b2, b3, b8, b9, b10, the outlet patch of the west faces of blocks
    b4..b7, and the wall patch of the east (body) face of each of the ten
    blocks; the three patches together refer to every block exactly twice,
    once by its west face in inlet or outlet and once by its east face in
    wall. *)
Theorem boundary_patches_cover_ring (d : R) :
  ∃ b, pipeline d = Some b ∧ boundary_coverage b.
Proof.
  destruct (pipeline_observe _ _ d (pipeline_boundary_summary d))
    as (b & Hb & Hs).
  exists b. split; [exact Hb|]. clear Hb.
  unfold boundary_summary in Hs.
  pose proof (f_equal (λ t, t.1.1.1.1.1) Hs) as Hblocks.
  pose proof (f_equal (λ t, t.1.1.1.1.2) Hs) as Hin.
  pose proof (f_equal (λ t, t.1.1.1.2) Hs) as Hout.
  pose proof (f_equal (λ t, t.1.1.2) Hs) as Hwall.
  pose proof (f_equal (λ t, t.1.2) Hs) as Hfaces.
  pose proof (f_equal (λ t, t.2) Hs) as Hrefs.
  cbn [fst snd] in Hblocks, Hin, Hout, Hwall, Hfaces, Hrefs. clear Hs.
  unfold boundary_coverage.
  split; [exact Hblocks|]. split; [exact Hin|]. split; [exact Hout|].
  split; [exact Hwall|]. split.
  - apply (Forall_of_fmap
             (λ pf : string * Face,
                (String.eqb pf.1 "wall", body_face pf.2, far_field_face pf.2))
             (λ t, if t.1.1 then t.1.2 = true else t.2 = true)).
    rewrite Hfaces. simpl. repeat constructor.
  - apply (Forall_of_fmap (block_refs b)
             (λ l, ∃ side : string,
                (side = "inlet" ∨ side = "outlet") ∧
                l = [(side, "w"); ("wall", "e")])).
    rewrite Hrefs.
    repeat (constructor; [eexists; split; [|reflexivity]; auto|]).
    constructor.
Qed.

(** ** Lists *)

Lemma fmap_eq_Forall2 {A B C} (f : A → C) (g : B → C) (l : list A) (k : list B) :
  f <$> l = g <$> k → Forall2 (λ a b, f a = g b) l k.
Proof.
  revert k. induction l as [|a l IH]; intros [|b k] H; try discriminate H;
    constructor.
  - by injection H.
  - apply IH. by injection H.
Qed.
Lemma fmap_eq_Forall {A C} (f g : A → C) (l : list A) :
  f <$> l = g <$> l → Forall (λ a, f a = g a) l.
Proof.
  induction l as [|a l IH]; intros H; constructor.
  - by injection H.
  - apply IH. by injection H.
Qed.

(** ** Further properties of [circle] *)

Lemma deg2rad_plus (a b : R) : np.deg2rad (a + b) = np.deg2rad a + np.deg2rad b.
Proof. unfold np.deg2rad. lra. Qed.

Lemma deg2rad_180 : np.deg2rad 180 = PI.
Proof. unfold np.deg2rad. field. Qed.

(** The squared distance from the centre is [r ^ 2], for every radius,
    negative ones included. *)
Lemma circle_sqdist (x0 z0 r teta : R) :
  ((Capsule2D.circle x0 z0 r teta).1 - x0) ^ 2 +
  ((Capsule2D.circle x0 z0 r teta).2 - z0) ^ 2 = r ^ 2.
Proof.
  unfold Capsule2D.circle. cbn [fst snd].
  pose proof (sin2_cos2 (np.deg2rad teta)) as H. unfold Rsqr in H. nra.
Qed.

(** X1: a negative radius is not rejected: it gives the point opposite to
    the one of the positive radius. *)
Theorem circle_neg_radius (x0 z0 r teta : R) :
  Capsule2D.circle x0 z0 (- r) teta = Capsule2D.circle x0 z0 r (teta + 180).
Proof.
  unfold Capsule2D.circle.
  rewrite deg2rad_plus, deg2rad_180, neg_cos, neg_sin.
  f_equal; lra.
Qed.

(** X2: whole turns of the angle do not move the point. *)
Theorem circle_period (x0 z0 r teta : R) (k : Z) :
  Capsule2D.circle x0 z0 r (teta + 360 * IZR k) = Capsule2D.circle x0 z0 r teta.
Proof.
  unfold Capsule2D.circle. rewrite deg2rad_turns.
  destruct (cos_sin_period_Z (np.deg2rad teta) k) as [-> ->]. reflexivity.
Qed.

(** Negating the angle mirrors the point in the horizontal line through the
    centre. *)
Lemma circle_neg_angle (x0 z0 r teta : R) :
  Capsule2D.circle x0 z0 r (- teta)
  = ((Capsule2D.circle x0 z0 r teta).1,
     2 * z0 - (Capsule2D.circle x0 z0 r teta).2).
Proof.
  unfold Capsule2D.circle. cbn [fst snd].
  replace (np.deg2rad (- teta)) with (- np.deg2rad teta)
    by (unfold np.deg2rad; lra).
  rewrite cos_neg, sin_neg. f_equal; lra.
Qed.

(** ** Further properties of [splines] *)

Lemma splines_z_start (x0 teta0 rad diameter posZmax : R) :
  splines_pre x0 teta0 →
  Capsule2D.splines_z x0 teta0 rad diameter posZmax x0 = rad * sin teta0.
Proof.
  intros Hpre. destruct (splines_pre_tan _ _ Hpre) as (Hx & Hc & Ht).
  unfold Capsule2D.splines_z, Capsule2D.splines_coeffs.
  cbv [Q2R Qnum Qden]. field. lra.
Qed.

(** X3: zeroth-order continuity at the starting point: on a valid input the
    cubic of [splines] takes at [x0] the height [R * sin(teta0)] of the
    circle point. *)
Theorem splines_at_x0 (x0 teta0 rad diameter posZmax : R) :
  splines_pre x0 teta0 →
  Capsule2D.splines_z x0 teta0 rad diameter posZmax x0 = rad * sin teta0.
Proof. apply splines_z_start. Qed.

Lemma splines_at_x0_witness :
  Capsule2D.splines_z 1 (PI / 4) 1 1 1 1 = 1 * sin (PI / 4).
Proof. apply (splines_at_x0 1 (PI / 4) 1 1 1). exact splines_pre_PI4. Defined.

(** X4: since [c = 0], the cubic is flat where it meets the far-field height:
    its derivative at [x = 0] is 0. *)
Theorem splines_flat_at_zero (x0 teta0 rad diameter posZmax : R) :
  splines_pre x0 teta0 →
  derivable_pt_lim (Capsule2D.splines_z x0 teta0 rad diameter posZmax) 0 0.
Proof.
  intros _.
  pose proof (splines_z_derivative x0 teta0 rad diameter posZmax 0) as H.
  unfold Capsule2D.splines_coeffs in H.
  match type of H with derivable_pt_lim _ _ ?l =>
    replace 0 with l at 2; [exact H|] end.
  cbv [Q2R Qnum Qden]. simpl. lra.
Qed.

Lemma splines_flat_at_zero_witness :
  derivable_pt_lim (Capsule2D.splines_z 1 (PI / 4) 1 1 1) 0 0.
Proof. apply (splines_flat_at_zero 1 (PI / 4) 1 1 1). exact splines_pre_PI4. Defined.

(** ** The body contour *)

Lemma capsule_points_eval (d : R) :
  (λ m, get_num m <$> capsule_attributes)
    <$> Capsule2D.capsule_points (Capsule2D.init d)
  = Some (Some <$> capsule_coords d).
Proof. vm_compute. reflexivity. Qed.

Lemma capsule_coords_scale (d k : R) :
  Forall2 (λ v w, w = k * v) (capsule_coords d) (capsule_coords (k * d)).
Proof.
  unfold capsule_coords. cbv zeta.
  repeat (constructor; [cbv [Q2R Qnum Qden]; lra|]). constructor.
Qed.

(** X5: scaling: every body-contour coordinate is proportional to the diameter;
    multiplying the diameter by [k] multiplies each of them by [k]. *)
Theorem capsule_points_scale (d k : R) :
  ∃ m mk,
    Capsule2D.capsule_points (Capsule2D.init d) = Some m ∧
    Capsule2D.capsule_points (Capsule2D.init (k * d)) = Some mk ∧
    Forall (λ a, ∃ v, get_num m a = Some v ∧ get_num mk a = Some (k * v))
           capsule_attributes.
Proof.
  pose proof (capsule_points_eval d) as H1.
  pose proof (capsule_points_eval (k * d)) as H2.
  destruct (Capsule2D.capsule_points (Capsule2D.init d)) as [m|];
    [|discriminate H1].
  destruct (Capsule2D.capsule_points (Capsule2D.init (k * d))) as [mk|];
    [|discriminate H2].
  exists m, mk. split; [reflexivity|]. split; [reflexivity|].
  cbn [fmap option_fmap option_map] in H1, H2.
  apply (inj Some) in H1. apply (inj Some) in H2.
  apply fmap_eq_Forall2 in H1. apply fmap_eq_Forall2 in H2.
  pose proof (capsule_coords_scale d k) as Hs.
  revert H1 H2 Hs. generalize (capsule_coords d) (capsule_coords (k * d)).
  induction capsule_attributes as [|a l IH]; intros cs cs' H1 H2 Hs;
    [constructor|].
  inversion H1 as [|? v ? vs Hv H1']; subst.
  inversion H2 as [|? w ? ws Hw H2']; subst.
  inversion Hs as [|? ? ? ? Hvw Hs']; subst.
  constructor; [|by eapply IH].
  exists v. by rewrite Hv, Hw.
Qed.

(** ** Further properties of [bottom_points] *)

Lemma mirror_program_NoDup : NoDup (a_dst <$> mirror_program).
Proof. apply (bool_decide_unpack _). vm_compute. exact I. Qed.

Lemma mirror_program_separate :
  Forall (λ a, a_src a ∉ a_dst <$> mirror_program) mirror_program.
Proof. apply (bool_decide_unpack _). vm_compute. exact I. Qed.

Lemma assign_Some (a : assignment) (self : obj) (v w : value) :
  self !! a_src a = Some v → a_op a v = Some w →
  assign a self = Some (<[a_dst a := w]> self).
Proof.
  destruct a as [d s | d s]; simpl; unfold assign_pos, assign_neg;
    intros -> Hw; simpl; rewrite Hw; reflexivity.
Qed.

Lemma Forall_separate_tail (a : assignment) (p : list assignment) :
  Forall (λ b, a_src b ∉ a_dst <$> a :: p) (a :: p) →
  a_src a ≠ a_dst a ∧
  Forall (λ b, a_src b ≠ a_dst a) p ∧
  Forall (λ b, a_src b ∉ a_dst <$> p) p.
Proof.
  intros H. apply Forall_cons in H as [Ha Hp]. rewrite fmap_cons in Ha.
  split; [intros E; apply Ha; rewrite E; left|].
  split; (eapply Forall_impl; [exact Hp|]); intros b Hb; rewrite fmap_cons in Hb.
  - intros E. apply Hb. rewrite E. left.
  - intros Hin. apply Hb. by right.
Qed.

(** A program whose sources are not among its destinations runs to its end
    exactly when every source attribute is there and can be signed. *)
Lemma assign_all_is_Some (p : list assignment) (self : obj) :
  Forall (λ a, a_src a ∉ a_dst <$> p) p →
  is_Some (assign_all p self)
  ↔ Forall (λ a, ∃ v, self !! a_src a = Some v ∧ is_Some (a_op a v)) p.
Proof.
  revert self. induction p as [|a p IH]; intros self Hsep.
  - split; [constructor | intros _; eexists; reflexivity].
  - destruct (Forall_separate_tail _ _ Hsep) as (_ & Hne & Hsep').
    simpl. split.
    + intros [s' Hs'].
      destruct (assign a self) as [s1|] eqn:Ha; [|discriminate Hs'].
      simpl in Hs'.
      destruct (assign_inv _ _ _ Ha) as (v & w & Hv & Hw & ->).
      constructor; [exists v; split; [exact Hv | by rewrite Hw]|].
      assert (Hp : is_Some (assign_all p (<[a_dst a:=w]> self))) by by exists s'.
      apply IH in Hp; [|exact Hsep'].
      rewrite Forall_forall in Hp, Hne. apply Forall_forall. intros b Hb.
      destruct (Hp b Hb) as (v' & Hv' & Hw').
      exists v'. split; [|exact Hw'].
      rewrite lookup_insert_ne in Hv'; [exact Hv'|].
      intros E. by apply (Hne b Hb).
    + intros H. apply Forall_cons in H as [(v & Hv & [w Hw]) Hp].
      rewrite (assign_Some _ _ _ _ Hv Hw). simpl. apply IH; [exact Hsep'|].
      rewrite Forall_forall in Hp, Hne. apply Forall_forall. intros b Hb.
      destruct (Hp b Hb) as (v' & Hv' & Hw').
      exists v'. split; [|exact Hw'].
      rewrite lookup_insert_ne; [exact Hv'|].
      intros E. by apply (Hne b Hb).
Qed.

Lemma a_op_is_Some (a : assignment) (v : value) :
  is_Some (a_op a v) ↔ ∀ s, v ≠ VStr s.
Proof.
  destruct a, v; simpl; split; intros H; try (eexists; reflexivity);
    try (intros s E; discriminate E);
    try (destruct H as [w Hw]; discriminate Hw);
    exfalso; by eapply H.
Qed.

(** X6: [bottom_points] returns exactly when each of the 28 top-half attributes
    it reads has been assigned a number or an array; if one of them is
    missing ([AttributeError]) it returns nothing. *)
Theorem bottom_points_defined (self : obj) :
  is_Some (Capsule2D.bottom_points self)
  ↔ Forall (λ k, ∃ v, self !! k = Some v ∧ ∀ s, v ≠ VStr s)
           (a_src <$> mirror_program).
Proof.
  rewrite bottom_points_program.
  rewrite (assign_all_is_Some _ _ mirror_program_separate).
  rewrite Forall_fmap. apply Forall_iff. intros a. unfold compose.
  split; intros (v & Hv & Hw); exists v; (split; [exact Hv|]);
    by apply (a_op_is_Some a).
Qed.

(** X7: [bottom_points] writes the 28 bottom-half attributes and nothing else:
    every other attribute keeps its value. *)
Theorem bottom_points_frame (self self' : obj) (k : string) :
  Capsule2D.bottom_points self = Some self' →
  k ∉ a_dst <$> mirror_program →
  self' !! k = self !! k.
Proof.
  rewrite bottom_points_program. apply assign_all_frame.
Qed.

Lemma reference_bottom_points :
  Capsule2D.bottom_points reference_top = Some reference_bottom.
Proof.
  unfold reference_bottom, reference_top. apply default_is_Some.
  pose proof (top_half_bottom_points 0.4) as H.
  destruct (top_half 0.4) as [top|]; [|discriminate H].
  simpl in H. simpl default.
  destruct (Capsule2D.bottom_points top) as [bottom|]; [|discriminate H].
  exists bottom. reflexivity.
Qed.

Lemma bottom_points_frame_witness :
  reference_bottom !! "diameter" = reference_top !! "diameter".
Proof.
  apply (bottom_points_frame reference_top reference_bottom "diameter").
  - exact reference_bottom_points.
  - apply (bool_decide_unpack _). vm_compute. exact I.
Defined.

(** Running a program again on its own result changes nothing. *)
Lemma assign_all_again (p : list assignment) (s s' t : obj) :
  assign_all p s = Some s' →
  NoDup (a_dst <$> p) →
  Forall (λ a, a_src a ∉ a_dst <$> p) p →
  Forall (λ a, t !! a_src a = s !! a_src a) p →
  Forall (λ a, t !! a_dst a = s' !! a_dst a) p →
  assign_all p t = Some t.
Proof.
  revert s t. induction p as [|a p IH]; intros s t H Hnd Hsep Hsrc Hdst;
    [reflexivity|].
  simpl in H. destruct (assign a s) as [s1|] eqn:Ha; [|discriminate H].
  simpl in H. rewrite fmap_cons in Hnd. apply NoDup_cons in Hnd as [Hda Hnd].
  destruct (Forall_separate_tail _ _ Hsep) as (_ & Hne & Hsep').
  apply Forall_cons in Hsrc as [Hsa Hsrc].
  apply Forall_cons in Hdst as [Hta Hdst].
  destruct (assign_inv _ _ _ Ha) as (v & w & Hv & Hw & ->).
  rewrite (assign_all_frame _ _ _ _ H Hda), lookup_insert_eq in Hta.
  simpl. rewrite (assign_Some a t v w); [|congruence | exact Hw].
  simpl. rewrite (insert_id _ _ _ Hta).
  apply (IH (<[a_dst a:=w]> s)); try assumption.
  rewrite Forall_forall in Hsrc, Hne. apply Forall_forall. intros b Hb.
  rewrite (Hsrc b Hb). symmetry. apply lookup_insert_ne.
  intros E. by apply (Hne b Hb).
Qed.

(** X8: [bottom_points] is idempotent: a second call on its result returns the
    same object. *)
Theorem bottom_points_idempotent (self self' : obj) :
  Capsule2D.bottom_points self = Some self' →
  Capsule2D.bottom_points self' = Some self'.
Proof.
  rewrite !bottom_points_program. intros H.
  apply (assign_all_again _ self self' self' H mirror_program_NoDup
           mirror_program_separate).
  - pose proof mirror_program_separate as Hsep.
    rewrite Forall_forall in Hsep. apply Forall_forall. intros a Ha.
    apply (assign_all_frame _ _ _ _ H). by apply Hsep.
  - apply Forall_forall. reflexivity.
Qed.

Lemma bottom_points_idempotent_witness :
  Capsule2D.bottom_points reference_bottom = Some reference_bottom.
Proof.
  apply (bottom_points_idempotent reference_top reference_bottom).
  exact reference_bottom_points.
Defined.

(** ** The far-field ring of the script *)

Lemma script_far_field_eval (d : R) :
  (λ m, (λ p, (get_num m p.1, get_num m p.2)) <$> far_field_points)
    <$> script_state d
  = Some ((λ q, (Some q.1, Some q.2)) <$> far_field_coords d).
Proof. vm_compute. reflexivity. Qed.

Lemma script_segments_eval (d : R) :
  (λ m, (get_arr m "ex23", get_arr m "ez23", get_arr m "ex34", get_arr m "ez34",
         get_arr m "ex910", get_arr m "ez910", get_arr m "ex89", get_arr m "ez89"))
    <$> script_state d
  = Some (Some (inlet_segment d).1, Some (inlet_segment d).2,
          Some (outlet_segment d).1, Some (outlet_segment d).2,
          Some (inlet_segment d).1, Some (Ropp <$> (inlet_segment d).2),
          Some (outlet_segment d).1, Some (Ropp <$> (outlet_segment d).2)).
Proof. vm_compute. reflexivity. Qed.



(** What the script has computed when it calls [to_blockMesh_dict2]: the
    far-field points and the four spline segments. *)
Lemma script_geometry (d : R) :
  ∃ m, script_state d = Some m ∧
       Forall2 (point_at m) far_field_points (far_field_coords d) ∧
       get_arr m "ex23" = Some (inlet_segment d).1 ∧
       get_arr m "ez23" = Some (inlet_segment d).2 ∧
       get_arr m "ex34" = Some (outlet_segment d).1 ∧
       get_arr m "ez34" = Some (outlet_segment d).2 ∧
       get_arr m "ex910" = Some (inlet_segment d).1 ∧
       get_arr m "ez910" = Some (Ropp <$> (inlet_segment d).2) ∧
       get_arr m "ex89" = Some (outlet_segment d).1 ∧
       get_arr m "ez89" = Some (Ropp <$> (outlet_segment d).2).
Proof.
  pose proof (script_far_field_eval d) as H1.
  pose proof (script_segments_eval d) as H2.
  destruct (script_state d) as [m|]; [|discriminate H1].
  exists m. split; [reflexivity|].
  cbn [fmap option_fmap option_map] in H1, H2.
  apply (inj Some) in H1. apply (inj Some) in H2.
  split.
  - apply fmap_eq_Forall2 in H1.
    eapply Forall2_impl; [exact H1|].
    intros p q E. cbn beta in E. unfold point_at.
    split; congruence.
  - repeat match goal with
           | |- _ ∧ _ => split
           end;
      match goal with
      | |- ?l = ?r =>
          match type of H2 with
          | context [l] => idtac
          end
      end; congruence.
Qed.

Ltac split_points H :=
  unfold far_field_points, far_field_coords in H;
  repeat (apply Forall2_cons in H as [? H]);
  clear H.

Ltac use_point :=
  match goal with
  | H : point_at ?m ?p ?q |- at_sqdist ?m _ _ _ ?p =>
      exists q.1, q.2; split; [exact (proj1 H)|]; split; [exact (proj2 H)|]
  end.

Ltac on_circle :=
  cbn [mirror_z fst snd];
  first
    [ match goal with
      | |- context [Capsule2D.circle ?a ?b ?r ?t] =>
          pose proof (circle_sqdist a b r t); nra
      end
    | unfold r_outlet, r_inlet, x_e6; cbv [Q2R Qnum Qden]; nra ].

(** X9: for every diameter the far-field points e3 .. e9 that the script
    computes, the mirrored ones included, lie on the circle around the origin
    with the radius [posXmax / 0.4 * diameter] of [outlet_circle]. *)
Theorem outlet_ring_on_circle (d : R) :
  ∃ m, script_state d = Some m ∧
       Forall (at_sqdist m 0 0 (r_outlet d ^ 2)) outlet_ring.
Proof.
  destruct (script_geometry d) as (m & Hm & H & _).
  exists m. split; [exact Hm|]. clear Hm. split_points H.
  unfold outlet_ring. repeat (constructor; [use_point; on_circle|]).
  constructor.
Qed.

(** X10: for every diameter the far-field points e12, e2 and their mirror
    images e1011, e10 lie on the circle around e6 with the radius
    [(posXmax - ex1) / 0.4 * diameter] of [inlet_circle]. *)
Theorem inlet_ring_on_circle (d : R) :
  ∃ m, script_state d = Some m ∧
       Forall (at_sqdist m (x_e6 d) 0 (r_inlet d ^ 2)) inlet_ring.
Proof.
  destruct (script_geometry d) as (m & Hm & H & _).
  exists m. split; [exact Hm|]. clear Hm. split_points H.
  unfold inlet_ring. repeat (constructor; [use_point; on_circle|]).
  constructor.
Qed.

(** X11: the leading far-field point e1, the end of the arc edges through e12
    and e1011, lies on that inlet circle for one positive diameter only, the
    reference diameter 0.4: the radius mixes the unscaled [posXmax] with the
    scaled [ex1]. *)
Theorem e1_on_inlet_circle (d : R) :
  0 < d →
  ∃ m, script_state d = Some m ∧
       (at_sqdist m (x_e6 d) 0 (r_inlet d ^ 2) ("ex1", "ez1") ↔ d = 0.4).
Proof.
  intros Hd. destruct (script_geometry d) as (m & Hm & H & _).
  exists m. split; [exact Hm|]. clear Hm. split_points H.
  match goal with H : point_at m ("ex1", "ez1") _ |- _ =>
    destruct H as [Hx Hz]; cbn [fst snd] in Hx, Hz end.
  split.
  - intros (x & z & Hx' & Hz' & E). cbn [fst snd] in Hx', Hz'.
    rewrite Hx in Hx'. rewrite Hz in Hz'.
    injection Hx' as <-. injection Hz' as <-.
    unfold r_inlet, x_e6 in E. cbv [Q2R Qnum Qden] in E |- *.
    assert (E' : (15 * d - (10 * d + 25 / 2 * d * d))
                 * (15 * d + (10 * d + 25 / 2 * d * d)) = 0) by (field_simplify in E; nra).
    apply Rmult_integral in E' as [E' | E']; nra.
  - intros ->. exists (- 2 / 0.4 * 0.4), 0.0.
    split; [exact Hx|]. split; [exact Hz|].
    unfold r_inlet, x_e6. cbv [Q2R Qnum Qden]. field.
Qed.

Lemma e1_on_inlet_circle_witness :
  ∃ m, script_state 0.4 = Some m ∧
       (at_sqdist m (x_e6 0.4) 0 (r_inlet 0.4 ^ 2) ("ex1", "ez1") ↔ 0.4 = 0.4).
Proof. apply (e1_on_inlet_circle 0.4). lra. Defined.

Lemma circle_mirror_z (x0 r t t' : R) :
  t' = - t →
  Capsule2D.circle x0 0 r t' = mirror_z (Capsule2D.circle x0 0 r t).
Proof.
  intros ->. rewrite circle_neg_angle. unfold mirror_z. cbn [fst snd].
  f_equal. lra.
Qed.

(** X12: the mirrored far-field points are the samples of the two far-field
    circles at the negated angles: mirroring keeps the ring on its
    circles. *)
Theorem mirrored_points_negated_angles (d : R) :
  ∃ m, script_state d = Some m ∧
       Forall (λ s, point_at m (s.1.1, s.1.2) s.2) (mirrored_samples d).
Proof.
  destruct (script_geometry d) as (m & Hm & H & _).
  exists m. split; [exact Hm|]. clear Hm. split_points H.
  unfold mirrored_samples. cbv zeta.
  repeat (constructor;
    [cbn [fst snd];
     match goal with
     | H : point_at m ?p (mirror_z (Capsule2D.circle ?a 0 ?r ?t))
       |- point_at m ?p (Capsule2D.circle ?a 0 ?r ?t') =>
         rewrite (circle_mirror_z a r t t') by lra; exact H
     end|]).
  constructor.
Qed.

(** ** The spline segments of the script *)

Lemma linspace_lookup (start stop : R) (num i : nat) :
  (i < num)%nat →
  np.linspace start stop num !! i
  = Some (start + INR i * ((stop - start) / INR (num - 1))).
Proof.
  intros Hi. unfold np.linspace. rewrite list_lookup_fmap.
  rewrite lookup_seq_lt by exact Hi. reflexivity.
Qed.

Lemma linspace_length (start stop : R) (num : nat) :
  length (np.linspace start stop num) = num.
Proof. unfold np.linspace. by rewrite length_fmap, length_seq. Qed.

Lemma linspace_lookup_lt (start stop : R) (num i : nat) (a : R) :
  np.linspace start stop num !! i = Some a → (i < num)%nat.
Proof.
  intros H. apply lookup_lt_Some in H. by rewrite linspace_length in H.
Qed.

(** From a start above the stop the samples go strictly down, from a start
    below it strictly up. *)
Lemma linspace_decreasing (start stop : R) (num : nat) :
  stop < start → strictly_decreasing (np.linspace start stop num).
Proof.
  intros Hlt i j a b Hij Hi Hj.
  pose proof (linspace_lookup_lt _ _ _ _ _ Hj) as Hjn.
  rewrite linspace_lookup in Hi by lia. rewrite linspace_lookup in Hj by lia.
  injection Hi as <-. injection Hj as <-.
  assert (Hn : 0 < INR (num - 1)) by (apply lt_0_INR; lia).
  assert (Hs : (stop - start) / INR (num - 1) < 0).
  { apply Rmult_neg_pos; [lra | by apply Rinv_0_lt_compat]. }
  apply lt_INR in Hij. nra.
Qed.

Lemma linspace_increasing (start stop : R) (num : nat) :
  start < stop → strictly_increasing (np.linspace start stop num).
Proof.
  intros Hlt i j a b Hij Hi Hj.
  pose proof (linspace_lookup_lt _ _ _ _ _ Hj) as Hjn.
  rewrite linspace_lookup in Hi by lia. rewrite linspace_lookup in Hj by lia.
  injection Hi as <-. injection Hj as <-.
  assert (Hn : 0 < INR (num - 1)) by (apply lt_0_INR; lia).
  assert (Hs : 0 < (stop - start) / INR (num - 1)).
  { apply Rmult_lt_0_compat; [lra | by apply Rinv_0_lt_compat]. }
  apply lt_INR in Hij. nra.
Qed.

Lemma splines_z_zero (x0 teta0 rad diameter posZmax : R) :
  Capsule2D.splines_z x0 teta0 rad diameter posZmax 0
  = (posZmax / 0.4) * diameter.
Proof. unfold Capsule2D.splines_z, Capsule2D.splines_coeffs. lra. Qed.

Lemma deg2rad_75 : 0 < np.deg2rad 75 < PI / 2.
Proof. pose proof PI_RGT_0. unfold np.deg2rad. lra. Qed.

Lemma deg2rad_155 : 3 * (PI / 4) < np.deg2rad 155 < PI.
Proof. pose proof PI_RGT_0. unfold np.deg2rad. lra. Qed.

Lemma splines_pre_75 (x0 : R) : x0 ≠ 0 → splines_pre x0 (np.deg2rad 75).
Proof.
  pose proof deg2rad_75 as H. pose proof PI_RGT_0. intros Hx.
  repeat split; [exact Hx | |].
  - apply not_multiple_of_PI, Rgt_not_eq, sin_gt_0; lra.
  - apply Rgt_not_eq, cos_gt_0; lra.
Qed.

Lemma splines_pre_155 (x0 : R) : x0 ≠ 0 → splines_pre x0 (np.deg2rad 155).
Proof.
  pose proof deg2rad_155 as H. pose proof PI_RGT_0. intros Hx.
  repeat split; [exact Hx | |].
  - apply not_multiple_of_PI, Rgt_not_eq, sin_gt_0; lra.
  - apply Rlt_not_eq, cos_lt_0; lra.
Qed.

Lemma x4_of_pos (d : R) : 0 < d → 0 < x4_of d.
Proof.
  intros Hd. unfold x4_of, Capsule2D.circle, r_outlet. cbn [fst].
  pose proof deg2rad_75 as H.
  assert (Hc : 0 < cos (np.deg2rad 75)) by (apply cos_gt_0; lra).
  cbv [Q2R Qnum Qden]. 
  assert (0 < 40 / 10 / (4 / 10) * d) by (apply Rmult_lt_0_compat; lra).
  nra.
Qed.

Lemma x4_of_neq_0 (d : R) : d ≠ 0 → x4_of d ≠ 0.
Proof.
  intros Hd. unfold x4_of, Capsule2D.circle, r_outlet. cbn [fst].
  pose proof deg2rad_75 as H.
  assert (Hc : 0 < cos (np.deg2rad 75)) by (apply cos_gt_0; lra).
  cbv [Q2R Qnum Qden]. intros E.
  assert (E' : d * cos (np.deg2rad 75) = 0) by lra.
  apply Rmult_integral in E' as [E' | E']; lra.
Qed.

Lemma sqrt2_lt_3_2 : sqrt 2 < 3 / 2.
Proof.
  replace (3 / 2) with (sqrt (9 / 4)).
  - apply sqrt_lt_1_alt. lra.
  - replace (9 / 4) with ((3 / 2) * (3 / 2)) by lra. apply sqrt_square. lra.
Qed.

Lemma cos_155_bound : cos (np.deg2rad 155) < - 2 / 3.
Proof.
  pose proof deg2rad_155 as H. pose proof PI_RGT_0.
  assert (Hc : cos (np.deg2rad 155) < cos (3 * (PI / 4)))
    by (apply cos_decreasing_1; lra).
  rewrite cos_3PI4 in Hc.
  pose proof sqrt2_lt_3_2 as Hs.
  assert (Hp : 0 < sqrt 2) by (apply sqrt_lt_R0; lra).
  assert (Hi : 2 / 3 < / sqrt 2).
  { replace (2 / 3) with (/ (3 / 2)) by lra.
    apply Rinv_lt_contravar; [nra | exact Hs]. }
  lra.
Qed.

(** At the reference diameter the inlet segment starts left of the
    origin. *)
Lemma x2_of_reference : x2_of 0.4 < 0.
Proof.
  unfold x2_of, Capsule2D.circle, r_inlet, x_e6. cbn [fst].
  pose proof cos_155_bound as H. cbv [Q2R Qnum Qden] in *. nra.
Qed.

Lemma linspace_head (start stop : R) (num : nat) :
  (0 < num)%nat → head (np.linspace start stop num) = Some start.
Proof.
  intros Hn. rewrite head_lookup, linspace_lookup by exact Hn.
  f_equal. simpl. lra.
Qed.

Lemma linspace_last (start stop : R) (num : nat) :
  (2 <= num)%nat → last (np.linspace start stop num) = Some stop.
Proof.
  intros Hn. rewrite last_lookup, linspace_length, linspace_lookup by lia.
  replace (Init.Nat.pred num) with (num - 1)%nat by lia.
  assert (H : INR (num - 1) ≠ 0) by (apply not_0_INR; lia).
  f_equal. field. exact H.
Qed.

Lemma splines_head (x0 : R) (xs : list R) (teta0 rad diameter posZmax : R) :
  splines_pre x0 teta0 → head xs = Some x0 →
  head (Capsule2D.splines x0 xs teta0 rad diameter posZmax)
  = Some (rad * sin teta0).
Proof.
  intros Hpre Hh. unfold Capsule2D.splines.
  rewrite head_lookup, list_lookup_fmap, <- head_lookup, Hh. simpl.
  f_equal. by apply splines_z_start.
Qed.

Lemma splines_last (x0 : R) (xs : list R) (teta0 rad diameter posZmax : R) :
  last xs = Some 0 →
  last (Capsule2D.splines x0 xs teta0 rad diameter posZmax)
  = Some ((posZmax / 0.4) * diameter).
Proof.
  intros Hl. unfold Capsule2D.splines. rewrite fmap_last, Hl. simpl.
  f_equal. apply splines_z_zero.
Qed.

Lemma head_Ropp (zs : list R) (z : R) :
  head zs = Some z → head (Ropp <$> zs) = Some (- z).
Proof. destruct zs; simpl; congruence. Qed.

Lemma last_Ropp (zs : list R) (z : R) :
  last zs = Some z → last (Ropp <$> zs) = Some (- z).
Proof. intros H. by rewrite fmap_last, H. Qed.

Ltac find_point p :=
  match goal with
  | H : point_at ?m p ?q |- point_at ?m p ?q' =>
      destruct H as [Hx Hz]; cbn [mirror_z fst snd] in Hx, Hz;
      unfold point_at; cbn [fst snd]; rewrite Hx, Hz;
      split; f_equal
  end.

(** X13: for every diameter other than 0 the outlet spline segment has 10 points,
    starts at the circle point e4 and ends at the far-field top point e3; its
    mirror image starts at e8 and ends at e9. *)
Theorem outlet_segment_joins (d : R) :
  d ≠ 0 →
  ∃ m xs zs zs',
    script_state d = Some m ∧
    get_arr m "ex34" = Some xs ∧ get_arr m "ez34" = Some zs ∧
    get_arr m "ex89" = Some xs ∧ get_arr m "ez89" = Some zs' ∧
    length xs = 10%nat ∧ length zs = 10%nat ∧ length zs' = 10%nat ∧
    joins m xs zs ("ex4", "ez4") ("ex3", "ez3") ∧
    joins m xs zs' ("ex8", "ez8") ("ex9", "ez9").
Proof.
  intros Hd.
  destruct (script_geometry d)
    as (m & Hm & H & _ & _ & Hxs & Hzs & _ & _ & Hxs' & Hzs').
  exists m, (outlet_segment d).1, (outlet_segment d).2,
    (Ropp <$> (outlet_segment d).2).
  split; [exact Hm|]. clear Hm. split_points H.
  do 4 (split; [assumption|]).
  unfold outlet_segment. cbn [fst snd].
  pose proof (splines_pre_75 _ (x4_of_neq_0 d Hd)) as Hpre.
  pose proof (linspace_head (x4_of d) 0 10 ltac:(lia)) as Hh.
  pose proof (linspace_last (x4_of d) 0 10 ltac:(lia)) as Hl.
  pose proof (splines_head _ _ _ (4 / 0.4 * d) d 4.0 Hpre Hh) as Hzh.
  pose proof (splines_last (x4_of d) _ (np.deg2rad 75) (4 / 0.4 * d) d 4.0 Hl)
    as Hzl.
  split; [apply linspace_length|].
  split; [unfold Capsule2D.splines; by rewrite length_fmap, linspace_length|].
  split; [unfold Capsule2D.splines; by rewrite !length_fmap, linspace_length|].
  split.
  - eexists _, _, _, _. do 4 (split; [eassumption|]). split.
    + find_point ("ex4", "ez4"); unfold x4_of, r_outlet, Capsule2D.circle;
        cbn [fst snd]; lra.
    + find_point ("ex3", "ez3"); lra.
  - eexists _, _, _, _.
    split; [exact Hh|]. split; [exact (head_Ropp _ _ Hzh)|].
    split; [exact Hl|]. split; [exact (last_Ropp _ _ Hzl)|]. split.
    + find_point ("ex8", "ez8"); unfold x4_of, r_outlet, Capsule2D.circle;
        cbn [fst snd]; lra.
    + find_point ("ex9", "ez9"); lra.
Qed.

Lemma outlet_segment_joins_witness :
  ∃ m xs zs zs',
    script_state 0.4 = Some m ∧
    get_arr m "ex34" = Some xs ∧ get_arr m "ez34" = Some zs ∧
    get_arr m "ex89" = Some xs ∧ get_arr m "ez89" = Some zs' ∧
    length xs = 10%nat ∧ length zs = 10%nat ∧ length zs' = 10%nat ∧
    joins m xs zs ("ex4", "ez4") ("ex3", "ez3") ∧
    joins m xs zs' ("ex8", "ez8") ("ex9", "ez9").
Proof. apply (outlet_segment_joins 0.4). lra. Defined.

(** X14: whenever the circle point e2 is not on the z-axis, the inlet spline
    segment has 10 points, starts at e2 and ends at the far-field top point
    e3; its mirror image starts at e10 and ends at e9. *)
Theorem inlet_segment_joins (d : R) :
  x2_of d ≠ 0 →
  ∃ m xs zs zs',
    script_state d = Some m ∧
    get_arr m "ex23" = Some xs ∧ get_arr m "ez23" = Some zs ∧
    get_arr m "ex910" = Some xs ∧ get_arr m "ez910" = Some zs' ∧
    length xs = 10%nat ∧ length zs = 10%nat ∧ length zs' = 10%nat ∧
    joins m xs zs ("ex2", "ez2") ("ex3", "ez3") ∧
    joins m xs zs' ("ex10", "ez10") ("ex9", "ez9").
Proof.
  intros Hx2.
  destruct (script_geometry d)
    as (m & Hm & H & Hxs & Hzs & _ & _ & Hxs' & Hzs' & _ & _).
  exists m, (inlet_segment d).1, (inlet_segment d).2,
    (Ropp <$> (inlet_segment d).2).
  split; [exact Hm|]. clear Hm. split_points H.
  do 4 (split; [assumption|]).
  unfold inlet_segment. cbn [fst snd].
  pose proof (splines_pre_155 _ Hx2) as Hpre.
  pose proof (linspace_head (x2_of d) 0 10 ltac:(lia)) as Hh.
  pose proof (linspace_last (x2_of d) 0 10 ltac:(lia)) as Hl.
  pose proof (splines_head _ _ _ ((4 - (- 2 / 0.4 * d)) / 0.4 * d) d 4.0
                Hpre Hh) as Hzh.
  pose proof (splines_last (x2_of d) _ (np.deg2rad 155)
                ((4 - (- 2 / 0.4 * d)) / 0.4 * d) d 4.0 Hl) as Hzl.
  split; [apply linspace_length|].
  split; [unfold Capsule2D.splines; by rewrite length_fmap, linspace_length|].
  split; [unfold Capsule2D.splines; by rewrite !length_fmap, linspace_length|].
  split.
  - eexists _, _, _, _. do 4 (split; [eassumption|]). split.
    + find_point ("ex2", "ez2"); unfold x2_of, r_inlet, Capsule2D.circle;
        cbn [fst snd]; lra.
    + find_point ("ex3", "ez3"); lra.
  - eexists _, _, _, _.
    split; [exact Hh|]. split; [exact (head_Ropp _ _ Hzh)|].
    split; [exact Hl|]. split; [exact (last_Ropp _ _ Hzl)|]. split.
    + find_point ("ex10", "ez10"); unfold x2_of, r_inlet, Capsule2D.circle;
        cbn [fst snd]; lra.
    + find_point ("ex9", "ez9"); lra.
Qed.

Lemma inlet_segment_joins_witness :
  ∃ m xs zs zs',
    script_state 0.4 = Some m ∧
    get_arr m "ex23" = Some xs ∧ get_arr m "ez23" = Some zs ∧
    get_arr m "ex910" = Some xs ∧ get_arr m "ez910" = Some zs' ∧
    length xs = 10%nat ∧ length zs = 10%nat ∧ length zs' = 10%nat ∧
    joins m xs zs ("ex2", "ez2") ("ex3", "ez3") ∧
    joins m xs zs' ("ex10", "ez10") ("ex9", "ez9").
Proof.
  apply (inlet_segment_joins 0.4). apply Rlt_not_eq. exact x2_of_reference.
Defined.

(** X15: the sample abscissas of both segments run strictly towards x = 0: down
    from a positive start, up from a negative one. *)
Theorem segments_monotone (d : R) :
  ∃ m xs23 xs34,
    script_state d = Some m ∧
    get_arr m "ex23" = Some xs23 ∧ get_arr m "ex34" = Some xs34 ∧
    (x2_of d < 0 → strictly_increasing xs23) ∧
    (0 < x2_of d → strictly_decreasing xs23) ∧
    (0 < d → strictly_decreasing xs34) ∧
    (d < 0 → strictly_increasing xs34).
Proof.
  destruct (script_geometry d) as (m & Hm & _ & Hxs & _ & Hxs' & _).
  exists m, (inlet_segment d).1, (outlet_segment d).1.
  split; [exact Hm|]. clear Hm. do 2 (split; [assumption|]).
  unfold inlet_segment, outlet_segment. cbn [fst].
  split; [apply linspace_increasing|]. split; [apply linspace_decreasing|].
  split.
  - intros Hd. apply linspace_decreasing. by apply x4_of_pos.
  - intros Hd. apply linspace_increasing.
    pose proof (x4_of_pos (- d) ltac:(lra)) as H.
    unfold x4_of, r_outlet, Capsule2D.circle in *. cbn [fst] in *. nra.
Qed.

(** ** Structure of the built topology *)

(** A decidable property of the built topology that evaluates to true. *)
Lemma pipeline_decide (P : BlockMeshDict → Prop) `{!∀ b, Decision (P b)}
    (d : R) :
  (λ b, bool_decide (P b)) <$> pipeline d = Some true →
  ∃ b, pipeline d = Some b ∧ P b.
Proof.
  destruct (pipeline d) as [b|]; simpl; intros Hb; [|discriminate Hb].
  exists b. split; [reflexivity|].
  apply (inj Some) in Hb. by apply bool_decide_eq_true in Hb.
Qed.

(** X16: no dangling reference: for every diameter, every block has eight
    different corners, and every vertex name used by a block, by an arc or
    spline edge or by a boundary face has been declared with
    [add_vertex]. *)
Theorem references_declared (d : R) :
  ∃ b, pipeline d = Some b ∧ well_formed_references b.
Proof. apply (pipeline_decide well_formed_references). vm_compute. reflexivity. Qed.

Lemma ring_closed_of_bounded (cs : list (list string)) :
  ring_closed_bounded cs → ring_closed cs.
Proof.
  intros H i j h h' Hi Hj. unfold ring_closed_bounded in H.
  rewrite Forall_forall in H.
  assert (Hi' : i ∈ seq 0 (length cs))
    by (apply elem_of_seq; apply lookup_lt_Some in Hi; lia).
  assert (Hj' : j ∈ seq 0 (length cs))
    by (apply elem_of_seq; apply lookup_lt_Some in Hj; lia).
  specialize (H i Hi'). rewrite Forall_forall in H. specialize (H j Hj').
  by rewrite Hi, Hj in H.
Qed.

(** X17: the ten blocks form a closed ring: the first four corners of each block
    are the last four corners of the next one, and of b1 for b10; neighbours
    share exactly these four corners, and blocks that are not neighbours
    share none. *)
Theorem blocks_form_closed_ring (d : R) :
  ∃ b, pipeline d = Some b ∧
       length (block_corners b) = 10%nat ∧ ring_closed (block_corners b).
Proof.
  destruct (pipeline_decide
              (λ b, length (block_corners b) = 10%nat
                    ∧ ring_closed_bounded (block_corners b)) d)
    as (b & Hb & Hlen & Hring); [vm_compute; reflexivity|].
  exists b. split; [exact Hb|]. split; [exact Hlen|].
  by apply ring_closed_of_bounded.
Qed.

(** X18: every arc edge and every spline edge connects two corners of one block
    that lie four positions apart in its corner list: the curved edges all
    run along the ring, on the far-field side or on the body side. *)
Theorem edges_run_along_ring (d : R) :
  ∃ b, pipeline d = Some b ∧
       Forall (λ ke, along_ring (block_corners b) (edge_vnames ke.2))
              (edges b).
Proof.
  apply (pipeline_decide
           (λ b, Forall (λ ke, along_ring (block_corners b) (edge_vnames ke.2))
                        (edges b))).
  vm_compute. reflexivity.
Qed.

(** ** Front and back copies *)

Lemma pipeline_edge_sides (d : R) :
  (λ b, (λ fb, (λ p, (vx p, vz p, vy p)) <$> edge_points fb.1.2)
          <$> pair_up (edges b)) <$> pipeline d
  = (λ b, (λ fb, (λ q, (vx q, vz q, 0.1)) <$> edge_points fb.2.2)
            <$> pair_up (edges b)) <$> pipeline d.
Proof. vm_compute. reflexivity. Qed.

Lemma pipeline_edge_back_side (d : R) :
  (λ b, (length (edges b),
         (λ fb, (λ q, vy q) <$> edge_points fb.2.2) <$> pair_up (edges b)))
    <$> pipeline d
  = (λ b, (24%nat,
           (λ fb, (λ q, - 0.1) <$> edge_points fb.2.2) <$> pair_up (edges b)))
      <$> pipeline d.
Proof. vm_compute. reflexivity. Qed.

(** X19: every arc and spline edge is added as a front edge followed by its back
    copy: the interpolation points of the two have the same x and z, and
    lie at y = 0.1 and y = -0.1. *)
Theorem edges_front_back (d : R) :
  ∃ b, pipeline d = Some b ∧
       length (edges b) = 24%nat ∧
       Forall (λ fb, Forall2 (front_back 0.1 (- 0.1))
                       (edge_points fb.1.2) (edge_points fb.2.2))
              (pair_up (edges b)).
Proof.
  pose proof (pipeline_edge_sides d) as H1.
  pose proof (pipeline_edge_back_side d) as H2.
  destruct (pipeline_is_Some d) as [b Hb]. rewrite Hb in H1, H2.
  exists b. split; [exact Hb|]. clear Hb.
  cbn [fmap option_fmap option_map] in H1, H2.
  apply (inj Some) in H1. apply (inj Some) in H2.
  pose proof (f_equal fst H2) as Hlen. apply (f_equal snd) in H2.
  cbn [fst snd] in Hlen, H2. split; [exact Hlen|]. clear Hlen.
  apply fmap_eq_Forall in H1. apply fmap_eq_Forall in H2.
  rewrite Forall_forall in H1, H2. apply Forall_forall. intros fb Hfb.
  specialize (H1 fb Hfb). specialize (H2 fb Hfb). cbn beta in H1, H2.
  apply fmap_eq_Forall2 in H1. apply fmap_eq_Forall in H2.
  clear Hfb. induction H1 as [|p q F B Hpq _ IH]; constructor.
  - apply Forall_cons in H2 as [Hq _]. unfold front_back.
    pose proof (f_equal (λ t, t.1.1) Hpq) as Hx.
    pose proof (f_equal (λ t, t.1.2) Hpq) as Hz.
    pose proof (f_equal (λ t, t.2) Hpq) as Hy.
    cbn [fst snd] in Hx, Hz, Hy. repeat split; assumption.
  - apply IH. apply Forall_cons in H2 as [_ H2]. exact H2.
Qed.

Lemma pipeline_vertex_sides (d : R) :
  (λ b, (λ n, (λ p, (vx p, vz p, vy p))
                <$> dict_get (n +:+ "f") (vertices b)) <$> stations)
    <$> pipeline d
  = (λ b, (λ n, (λ q, (vx q, vz q, Py.round 0.1 4))
                  <$> dict_get (n +:+ "b") (vertices b)) <$> stations)
      <$> pipeline d.
Proof. vm_compute. reflexivity. Qed.

Lemma pipeline_vertex_back_side (d : R) :
  (λ b, (λ n, vy <$> dict_get (n +:+ "b") (vertices b)) <$> stations)
    <$> pipeline d
  = Some ((λ n, Some (Py.round (- 0.1) 4)) <$> stations).
Proof. vm_compute. reflexivity. Qed.

(** X20: each of the 22 stations has a front vertex [..f] and a back vertex
    [..b] in the topology, with the same rounded x and z and the rounded
    y = 0.1 and y = -0.1. *)
Theorem vertices_front_back (d : R) :
  ∃ b, pipeline d = Some b ∧
       Forall (λ n, ∃ p q,
                 dict_get (n +:+ "f") (vertices b) = Some p ∧
                 dict_get (n +:+ "b") (vertices b) = Some q ∧
                 front_back (Py.round 0.1 4) (Py.round (- 0.1) 4) p q)
              stations.
Proof.
  pose proof (pipeline_vertex_sides d) as H1.
  pose proof (pipeline_vertex_back_side d) as H2.
  destruct (pipeline_is_Some d) as [b Hb]. rewrite Hb in H1, H2.
  exists b. split; [exact Hb|]. clear Hb.
  cbn [fmap option_fmap option_map] in H1, H2.
  apply (inj Some) in H1. apply (inj Some) in H2.
  apply fmap_eq_Forall in H1. apply fmap_eq_Forall in H2.
  rewrite Forall_forall in H1, H2. apply Forall_forall. intros n Hn.
  specialize (H1 n Hn). specialize (H2 n Hn). cbn beta in H1, H2.
  destruct (dict_get (n +:+ "b") (vertices b)) as [q|]; [|discriminate H2].
  destruct (dict_get (n +:+ "f") (vertices b)) as [p|]; [|discriminate H1].
  cbn [fmap option_fmap option_map] in H1, H2.
  apply (inj Some) in H1. apply (inj Some) in H2.
  exists p, q. split; [reflexivity|]. split; [reflexivity|].
  pose proof (f_equal (λ t, t.1.1) H1) as Hx.
  pose proof (f_equal (λ t, t.1.2) H1) as Hz.
  pose proof (f_equal (λ t, t.2) H1) as Hy.
  cbn [fst snd] in Hx, Hz, Hy. unfold front_back. repeat split; assumption.
Qed.

(** ** Cell counts as a function of [Nz] *)

Lemma counts_positive_checked :
  Forall counts_positive_from_20 (Z.of_nat <$> seq 0 4097).
Proof. apply (bool_decide_unpack _). vm_compute. exact I. Qed.

(** X21: for [0 <= Nz <= 4096] the ten circumferential cell counts are defined,
    and they are all positive exactly when [Nz >= 20]: below that the
    offset -4 of blocks b5 and b6 takes their count to zero or below. *)
Theorem ring_counts_positive (Nz : Z) :
  (0 <= Nz <= 4096)%Z →
  ∃ l, ring_counts Nz = Some l ∧
       (Forall (λ n, (0 < n)%Z) l ↔ (20 <= Nz)%Z).
Proof.
  intros HNz. pose proof counts_positive_checked as H.
  rewrite Forall_forall in H. specialize (H Nz).
  assert (Hin : Nz ∈ Z.of_nat <$> seq 0 4097).
  { apply list_elem_of_fmap. exists (Z.to_nat Nz).
    split; [lia|]. apply elem_of_seq. lia. }
  specialize (H Hin). unfold counts_positive_from_20 in H.
  destruct (ring_counts Nz) as [l|]; [|contradiction].
  exists l. split; [reflexivity | exact H].
Qed.

Lemma ring_counts_positive_witness :
  ∃ l, ring_counts 121 = Some l ∧
       (Forall (λ n, (0 < n)%Z) l ↔ (20 <= 121)%Z).
Proof. apply (ring_counts_positive 121). lia. Defined.

(** ** Call order *)

Lemma Vertex__None (self : obj) (xa ya za name k : string) :
  self !! k = None → (k = xa ∨ k = ya ∨ k = za) →
  Capsule2D.Vertex_ self xa ya za name = None.
Proof.
  intros Hk Hin. unfold Capsule2D.Vertex_, get_num.
  destruct Hin as [<- | [<- | <-]].
  - by rewrite Hk.
  - destruct (self !! xa ≫= to_R); simpl; [|reflexivity]. by rewrite Hk.
  - destruct (self !! xa ≫= to_R); simpl; [|reflexivity].
    destruct (self !! ya ≫= to_R); simpl; [|reflexivity]. by rewrite Hk.
Qed.

Lemma mapM_id_None {A} (l : list (option A)) :
  None ∈ l → mapM (λ v, v) l = None.
Proof.
  induction l as [|[a|] l IH]; intros H.
  - by apply elem_of_nil in H.
  - apply elem_of_cons in H as [H | H]; [discriminate H|].
    simpl. by rewrite (IH H).
  - reflexivity.
Qed.

Lemma elem_of_None_here {A} (x : option A) (l : list (option A)) :
  x = None → None ∈ x :: l.
Proof. intros ->. left. Qed.

Ltac find_None Hk :=
  first
    [ apply elem_of_None_here; apply (Vertex__None _ _ _ _ _ _ Hk);
      first [ left; reflexivity
            | right; left; reflexivity
            | right; right; reflexivity ]
    | apply list_elem_of_further; find_None Hk ].

(** X22: [to_blockMesh_dict2] reads 46 attributes for its vertex list, among
    them the bottom-half ones that [bottom_points] assigns: if one of them
    has not been assigned, the call fails ([AttributeError]) instead of
    building a topology. *)
Theorem to_blockMesh_dict2_needs_attributes (self : obj) (k : string) :
  k ∈ vertex_attributes → self !! k = None →
  Capsule2D.to_blockMesh_dict2 self = None.
Proof.
  intros Hin Hk. unfold Capsule2D.to_blockMesh_dict2.
  match goal with
  | |- context [mapM (λ v, v) ?l] =>
      assert (E : mapM (λ v, v) l = None); [|by rewrite E]
  end.
  apply mapM_id_None. unfold vertex_attributes in Hin.
  repeat (apply elem_of_cons in Hin as [-> | Hin]; [find_None Hk|]).
  by apply elem_of_nil in Hin.
Qed.

Lemma to_blockMesh_dict2_needs_attributes_witness :
  Capsule2D.to_blockMesh_dict2 reference_top = None.
Proof.
  apply (to_blockMesh_dict2_needs_attributes reference_top "ex7").
  - apply (bool_decide_unpack _). vm_compute. exact I.
  - vm_compute. reflexivity.
Defined.
